(** * The product collector of kingsoftcloud-exporter

    A shallow embedding of [collector/product.go]: the reload cycle
    ([LoadMetricsByProductConf], [loadMetrics], [createMetricWithMeta]), the
    scrape dispatch ([Collect]) and the background reloader ([Run]), together
    with the properties the design document states about them.

    Conventions of the embedding.
    - [*metric.Metric] values are pointers: the registry [MetricMap] maps a
      key to a location, and the objects live in [Heap].  A location is an
      index into the heap; objects are never freed.
    - Everything the collector calls outside this file (repositories, the
      product handler, the [metric] and [config] packages, the clock) is a
      field of [Env].  Calls that talk to the outside take the outside world
      and return the next one, so two calls may answer differently.
    - A Go function returning [(T, error)] whose value is read even when the
      error is set returns a pair with an [option error]; one whose value is
      only read on success returns a sum.
    - The logger is a list of entries; the key/value context of a log line is
      dropped, its level and message are kept.
    - A computation returns [None] when the Go code would panic on a nil or
      dangling [*metric.Metric].
    - The reload cycle is sequential, so [c.lock] is not represented.  The
      goroutines of [Collect] and the [select] of [Run] are driven by an
      explicit scheduler; durations ([time.Sleep], the ticker's period) are
      not represented. *)

From stdpp Require Import gmap strings list fin_maps.
From Stdlib Require Import ZArith Lia Ascii.

Open Scope string_scope.
Open Scope list_scope.
Open Scope nat_scope.

(** ** Basic data *)

Abbreviation error := string.
Abbreviation loc := nat.

Inductive Level := Debug | Info | Warn | Error.

Record LogEntry := { lvl : Level; msg : string }.

#[global] Instance Level_eq_dec : EqDecision Level.
Proof. solve_decision. Defined.

#[global] Instance LogEntry_eq_dec : EqDecision LogEntry.
Proof. solve_decision. Defined.

(** [int64] arithmetic: the result of an operation is reduced to the signed
    64-bit range. *)
Definition wrap64 (z : Z) : Z := ((z + 2 ^ 63) mod 2 ^ 64 - 2 ^ 63)%Z.

(** Modelled from the spec: [util.IsStrInList] belongs to package [util],
    which is not covered here; the exclusion filter "filters out metrics whose
    lowercase name is in the product's exclusion list", so it is list
    membership. *)
Definition IsStrInList (l : list string) (s : string) : bool :=
  bool_decide (s ∈ l).

(** ** [SplitByBatch] *)

(** Modelled from the spec: the loop behind [metric.QuerySet.SplitByBatch],
    which belongs to package [metric] and is not covered here.  Batches are
    cut off the front of the sequence, [size] queries at a time, until none is
    left; [fuel] bounds the number of batches. *)
Fixpoint splitFrom {A} (fuel size : nat) (qs : list A) : list (list A) :=
  match fuel with
  | 0 => []
  | S fuel' =>
      match qs with
      | [] => []
      | _ :: _ => take size qs :: splitFrom fuel' size (drop size qs)
      end
  end.

(** Modelled from the spec: [metric.QuerySet.SplitByBatch], of which only
    the call at product.go line 51 is covered here.  "SplitByBatch(size) ->
    ordered sequence of batches, each batch an ordered sequence of Query with
    length <= size (the final batch may be shorter)". *)
Definition SplitByBatch {A} (qs : list A) (size : nat) : list (list A) :=
  splitFrom (length qs) size qs.

Section Collector.

(** Types owned by the [metric], [instance], [config] and [prometheus]
    packages. *)
Context {Meta MetricConfig Metric Series Instance ProductConf Repo Sample World : Type}.

(** Modelled from the spec: [metric.Query] belongs to package [metric],
    which is not covered here; a Query "pairs one Metric with the Metric
    Repository needed to fetch its samples", and the code reads the metric
    back as [q.Metric]. *)
Record Query := { QMetric : loc; QRepo : Repo }.

(** ** The collaborators *)

Record Env := {
  (* field accessors *)
  MetricName : Meta -> string;
  LoadTimeAt : Metric -> Z;
  ExcludeMetrics : ProductConf -> list string;
  GetInstanceID : Instance -> string;
  (* strings.ToLower *)
  ToLower : string -> string;
  (* package config *)
  IsSupportMultiDimensionNamespace : string -> bool;
  DefaultSupportInstances : nat;
  DefaultQueryMetricBatchSize : nat;
  DefaultKS3QueryMetricBatchSize : nat;
  GetProductConfig : string -> World -> ProductConf + error;
  (* iam.ReloadIAMProjects *)
  ReloadIAMProjects : World -> option error * World;
  (* c.handler *)
  GetInstances : World -> (list Instance * option error) * World;
  GetSeriesByInstances :
    Metric -> list Instance -> World -> (list Series * option error) * World;
  (* c.MetricRepo *)
  ListMetrics : string -> string -> World -> (list Meta * option error) * World;
  (* package metric *)
  NewMetricConfigWithProductYaml : ProductConf -> Meta -> MetricConfig + error;
  NewMetric : Meta -> MetricConfig -> World -> (Metric + error) * World;
  LoadSeries : Metric -> list Series -> World -> (Metric * option error) * World;
  NewQueryErr : Metric -> Repo -> option error;
  (* metric.GetPromMetricsByQueries: what the repository answers to the
     i-th batch of a scrape *)
  GetPromMetricsByQueries : nat -> list Query -> list Sample * option error;
  (* time.Now().Unix() *)
  Now : World -> Z * World;
  (* time.Sleep, of a positive duration in nanoseconds *)
  Sleep : Z -> World -> World;
  (* the order in which a [range] over the registry visits its entries *)
  RangeOrder : gmap string loc -> list (string * loc)
}.

(** ** The collector

    The fields of [KscProductCollector] that the code reads or writes,
    followed by what the collector reaches through pointers: the metric
    objects, the logger's output and the outside world. *)
Record KscProductCollector := {
  Namespace : string;
  MetricRepo : Repo;
  MetricMap : gmap string loc;
  Queries : list Query;
  Heap : list Metric;
  Logged : list LogEntry;
  Outside : World
}.

Definition set_MetricMap (f : gmap string loc -> gmap string loc)
    (c : KscProductCollector) : KscProductCollector :=
  {| Namespace := Namespace c; MetricRepo := MetricRepo c;
     MetricMap := f (MetricMap c); Queries := Queries c; Heap := Heap c;
     Logged := Logged c; Outside := Outside c |}.

Definition set_Queries (f : list Query -> list Query)
    (c : KscProductCollector) : KscProductCollector :=
  {| Namespace := Namespace c; MetricRepo := MetricRepo c;
     MetricMap := MetricMap c; Queries := f (Queries c); Heap := Heap c;
     Logged := Logged c; Outside := Outside c |}.

Definition set_Heap (f : list Metric -> list Metric)
    (c : KscProductCollector) : KscProductCollector :=
  {| Namespace := Namespace c; MetricRepo := MetricRepo c;
     MetricMap := MetricMap c; Queries := Queries c; Heap := f (Heap c);
     Logged := Logged c; Outside := Outside c |}.

Definition set_Logged (f : list LogEntry -> list LogEntry)
    (c : KscProductCollector) : KscProductCollector :=
  {| Namespace := Namespace c; MetricRepo := MetricRepo c;
     MetricMap := MetricMap c; Queries := Queries c; Heap := Heap c;
     Logged := f (Logged c); Outside := Outside c |}.

Definition set_Outside (w : World)
    (c : KscProductCollector) : KscProductCollector :=
  {| Namespace := Namespace c; MetricRepo := MetricRepo c;
     MetricMap := MetricMap c; Queries := Queries c; Heap := Heap c;
     Logged := Logged c; Outside := w |}.

(** ** A state monad with panics *)

Definition M (A : Type) : Type :=
  KscProductCollector -> option (A * KscProductCollector).

Definition ret {A} (a : A) : M A := fun c => Some (a, c).

Definition bind {A B} (m : M A) (k : A -> M B) : M B :=
  fun c => match m c with
           | Some (a, c') => k a c'
           | None => None
           end.

Notation "'let*' x ':=' m 'in' k" := (bind m (fun x => k))
  (at level 10, x name, m at level 100, k at level 200).
Notation "'do' m 'in' k" := (bind m (fun _ => k))
  (at level 10, m at level 100, k at level 200).

Definition get : M KscProductCollector := fun c => Some (c, c).

Definition modify (f : KscProductCollector -> KscProductCollector) : M unit :=
  fun c => Some (tt, f c).

(** A call to the outside. *)
Definition call {A} (f : World -> A * World) : M A :=
  fun c => let r := f (Outside c) in Some (r.1, set_Outside r.2 c).

Definition log (l : Level) (m : string) : M unit :=
  modify (set_Logged (fun ls => ls ++ [{| lvl := l; msg := m |}])).

(** [if err != nil { log }] *)
Definition logIfErr (err : option error) (l : Level) (m : string) : M unit :=
  match err with
  | Some _ => log l m
  | None => ret tt
  end.

(** Pointer operations on [*metric.Metric]. *)
Definition alloc (m : Metric) : M loc :=
  fun c => Some (length (Heap c), set_Heap (fun h => h ++ [m]) c).

Definition deref (p : loc) : M Metric :=
  fun c => match Heap c !! p with
           | Some m => Some (m, c)
           | None => None
           end.

Definition store (p : loc) (m : Metric) : M unit :=
  modify (set_Heap (fun h => <[p := m]> h)).

(** [for _, x := range xs { body }] without early exit. *)
Fixpoint forEach {A} (body : A -> M unit) (xs : list A) : M unit :=
  match xs with
  | [] => ret tt
  | x :: rest => do body x in forEach body rest
  end.

Variable E : Env.

(** ** [createMetricWithMeta] (product.go, lines 195-215) *)

Definition metricKey (name instanceId : string) : string :=
  name +:+ "." +:+ instanceId.

Definition createMetricWithMeta (meta : Meta) (productConf : ProductConf)
    (instanceId : string) : M (loc + error) :=
  let* c := get in
  let key := metricKey (MetricName E meta) instanceId in
  match MetricMap c !! key with
  | None =>
      match NewMetricConfigWithProductYaml E productConf meta with
      | inr err => ret (inr err)
      | inl conf =>
          let* r := call (NewMetric E meta conf) in
          match r with
          | inr err => ret (inr err)
          | inl nm => let* p := alloc nm in ret (inl p)
          end
      end
  | Some m => ret (inl m)
  end.

(** ** [loadMetrics] (product.go, lines 140-193) *)

(** The exclusion test of line 161. *)
Definition isExcluded (excludeMetrics : list string) (meta : Meta) : bool :=
  negb (length excludeMetrics =? 0)
  && IsStrInList excludeMetrics (ToLower E (MetricName E meta)).

(** The body of the inner loop, lines 161-187. *)
Definition loadMeta (productConf : ProductConf) (excludeMetrics : list string)
    (ins : Instance) (meta : Meta) : M unit :=
  if isExcluded excludeMetrics meta
  then ret tt
  else
    let* r := createMetricWithMeta meta productConf (GetInstanceID E ins) in
    match r with
    | inr _ => log Warn "Create metric fail"
    | inl nm =>
        let key := metricKey (MetricName E meta) (GetInstanceID E ins) in
        do modify (set_MetricMap (fun m => <[key := nm]> m)) in
        let* obj := deref nm in
        let* sr := call (GetSeriesByInstances E obj [ins]) in
        do logIfErr sr.2 Error "create metric series err" in
        do log Debug "found remote instances" in
        let* lr := call (LoadSeries E obj sr.1) in
        do store nm lr.1 in
        logIfErr lr.2 Error "load metric series err"
    end.

(** The body of the outer loop, lines 154-189. *)
Definition loadInstance (productConf : ProductConf)
    (excludeMetrics : list string) (ins : Instance) : M unit :=
  let* c := get in
  let* lr := call (ListMetrics E (Namespace c) (GetInstanceID E ins)) in
  do logIfErr lr.2 Warn "request metric list fail" in
  if 0 <? length lr.1
  then forEach (loadMeta productConf excludeMetrics ins) lr.1
  else ret tt.

(** Lines 147-152. *)
Definition lowerExcludes (productConf : ProductConf) : list string :=
  if negb (length (ExcludeMetrics E productConf) =? 0)
  then map (ToLower E) (ExcludeMetrics E productConf)
  else [].

Definition loadMetrics (instances : list Instance) : M (option error) :=
  let* c := get in
  match GetProductConfig E (Namespace c) (Outside c) with
  | inr err => ret (Some err)
  | inl productConf =>
      do forEach (loadInstance productConf (lowerExcludes productConf)) instances in
      ret None
  end.

(** ** [LoadMetricsByProductConf] (product.go, lines 85-138) *)

(** Modelled from the spec: [metric.NewQuery(m, c.MetricRepo)], which
    belongs to package [metric]; it pairs the metric with the repository, and
    whether it fails instead is up to the collaborators ([NewQueryErr]). *)
Definition NewQuery (m : loc) (obj : Metric) (repo : Repo) : Query + error :=
  match NewQueryErr E obj repo with
  | Some err => inr err
  | None => inl {| QMetric := m; QRepo := repo |}
  end.

(** The loop of lines 125-134; it leaves the function on the first query
    that cannot be built. *)
Fixpoint rangeQueries (currentTime : Z) (entries : list (string * loc))
    : M (option error) :=
  match entries with
  | [] => ret None
  | (_, m) :: rest =>
      let* obj := deref m in
      if (wrap64 (currentTime - LoadTimeAt E obj) <? 60)%Z
      then
        let* c := get in
        match NewQuery m obj (MetricRepo c) with
        | inr e => ret (Some e)
        | inl q =>
            do modify (set_Queries (fun qs => qs ++ [q])) in
            rangeQueries currentTime rest
        end
      else rangeQueries currentTime rest
  end.

(** Lines 101-115. *)
Definition boundInstances (instances : list Instance) : M (list Instance) :=
  let* c := get in
  if IsSupportMultiDimensionNamespace E (Namespace c)
  then
    if DefaultSupportInstances E <? length instances
    then
      do log Warn "loaded instances exceeds the maximum load of a single product" in
      ret (take (DefaultSupportInstances E) instances)
    else ret instances
  else ret instances.

(** Lines 117-137: everything after the instance snapshot is fixed. *)
Definition loadFromInstances (instances : list Instance) : M (option error) :=
  let* err := loadMetrics instances in
  match err with
  | Some e => ret (Some e)
  | None =>
      let* currentTime := call (Now E) in
      let* c := get in
      let* r := rangeQueries currentTime (RangeOrder E (MetricMap c)) in
      match r with
      | Some e => ret (Some e)
      | None => do log Info "Init new query" in ret None
      end
  end.

(** Lines 87-96: up to the instance snapshot. *)
Definition snapshotInstances : M (list Instance * option error) :=
  do log Info "start load metrics" in
  do modify (fun c => if size (MetricMap c) =? 0
                      then set_MetricMap (fun _ => ∅) c else c) in
  do call (ReloadIAMProjects E) in
  call (GetInstances E).

Definition LoadMetricsByProductConf : M (option error) :=
  let* ir := snapshotInstances in
  match ir.2 with
  | Some err => ret (Some err)
  | None =>
      let* instances := boundInstances ir.1 in
      loadFromInstances instances
  end.

(** ** [Collect] (product.go, lines 43-74)

    Every batch is handed to a goroutine of its own.  A goroutine first
    fetches, then sends its samples one by one on [ch], then signals the
    wait group.  The scheduler is a list of goroutine indices: each entry
    lets that goroutine take its next step. *)

Inductive Task :=
| Fetching (q : list Query)
| Sending (pms : list Sample)
| Finished.

Record Scrape := {
  tasks : list Task;
  ch : list Sample;
  logger : list LogEntry
}.

Definition isFinished (t : Task) : bool :=
  match t with Finished => true | _ => false end.

Definition stepTask (s : Scrape) (i : nat) : Scrape :=
  match tasks s !! i with
  | Some (Fetching q) =>
      let r := GetPromMetricsByQueries E i q in
      match r.2 with
      | Some _ =>
          {| tasks := <[i := Finished]> (tasks s); ch := ch s;
             logger := logger s ++ [{| lvl := Error; msg := "Get samples fail" |}] |}
      | None =>
          {| tasks := <[i := Sending r.1]> (tasks s); ch := ch s;
             logger := logger s |}
      end
  | Some (Sending (pm :: rest)) =>
      {| tasks := <[i := Sending rest]> (tasks s); ch := ch s ++ [pm];
         logger := logger s |}
  | Some (Sending []) =>
      {| tasks := <[i := Finished]> (tasks s); ch := ch s; logger := logger s |}
  | Some Finished | None => s
  end.

Definition batchSize (c : KscProductCollector) : nat :=
  if String.eqb (Namespace c) "KS3"
  then DefaultKS3QueryMetricBatchSize E
  else DefaultQueryMetricBatchSize E.

Definition spawn (c : KscProductCollector) (sink : list Sample) : Scrape :=
  {| tasks := map Fetching (SplitByBatch (Queries c) (batchSize c));
     ch := sink; logger := Logged c |}.

(** [Collect sched sink c] is [None] while [wg.Wait()] is still blocked at
    the end of the schedule; otherwise it is the returned error, the sink
    and the collector. *)
Definition Collect (sched : list nat) (sink : list Sample)
    (c : KscProductCollector)
    : option (option error * list Sample * KscProductCollector) :=
  let s := foldl stepTask (spawn c sink) sched in
  if forallb isFinished (tasks s)
  then Some (None, ch s, set_Logged (fun _ => logger s) c)
  else None.

(** What the goroutine of batch [i] puts on the sink: the samples of a fetch
    that succeeded, nothing for one that failed. *)
Definition delivered (i : nat) (q : list Query) : list Sample :=
  match (GetPromMetricsByQueries E i q).2 with
  | Some _ => []
  | None => (GetPromMetricsByQueries E i q).1
  end.

Fixpoint deliveredFrom (i : nat) (groups : list (list Query)) : list Sample :=
  match groups with
  | [] => []
  | q :: rest => delivered i q ++ deliveredFrom (S i) rest
  end.

(** What a goroutine has still to send. *)
Definition owed (i : nat) (t : Task) : list Sample :=
  match t with
  | Fetching q => delivered i q
  | Sending pms => pms
  | Finished => []
  end.

Fixpoint pendingFrom (i : nat) (ts : list Task) : list Sample :=
  match ts with
  | [] => []
  | t :: rest => owed i t ++ pendingFrom (S i) rest
  end.

(** The schedule that runs the goroutines one after the other, each to its
    end. *)
Fixpoint inTurn (i : nat) (groups : list (list Query)) : list nat :=
  match groups with
  | [] => []
  | q :: rest => replicate (2 + length (delivered i q)) i ++ inTurn (S i) rest
  end.

(** ** The reloader (product.go, lines 241-269)

    [r.ctx] is represented by whether its [Done] channel is closed.  Each
    time [Run] reaches its [select], the scheduler says whether [Stop] has
    arrived by then, and which of the two cases it takes when both are
    ready; the ticker always fires eventually. *)

Record SelectEvent := { stopArrives : bool; prefersDone : bool }.

Inductive RunStatus := Returned | Selecting.

Definition Stop (ctxDone : bool) : bool := true.

Definition reloadMetricsByProductConf : M (option error) :=
  LoadMetricsByProductConf.

(** Lines 249-254. *)
Definition reloadOnce : M unit :=
  do log Info "start reload product metadata" in
  let* e := reloadMetricsByProductConf in
  do logIfErr e Error "reload product error" in
  log Info "complete reload product metadata".

(** The [select] of lines 255-259, followed by the next turn of the loop. *)
Fixpoint selectLoop (ctxDone : bool) (sched : list SelectEvent) : M RunStatus :=
  match sched with
  | [] => ret Selecting
  | ev :: rest =>
      let ctxDone' := ctxDone || stopArrives ev in
      if ctxDone' && prefersDone ev
      then ret Returned
      else do reloadOnce in selectLoop ctxDone' rest
  end.

(** [time.NewTicker(d)] panics unless [d] is positive. *)
Definition NewTicker (d : Z) : M unit :=
  fun c => if (0 <? d)%Z then Some (tt, c) else None.

(** Lines 242-261.  [reloadInterval] is [r.reloadInterval], in nanoseconds;
    [ctxDone] says whether the context was cancelled by the time the first
    sleep of one interval was over. *)
Definition Run (reloadInterval : Z) (ctxDone : bool) (sched : list SelectEvent)
    : M RunStatus :=
  do NewTicker reloadInterval in
  do call (fun w => (tt, Sleep E reloadInterval w)) in
  do reloadOnce in selectLoop ctxDone sched.

(** The reloads a collector has gone through, as its log records them. *)
Definition reloadDone : LogEntry :=
  {| lvl := Info; msg := "complete reload product metadata" |}.

Definition reloads (c : KscProductCollector) : nat :=
  length (filter (fun e => e = reloadDone) (Logged c)).

Definition sameReloads (c c' : KscProductCollector) : Prop :=
  reloads c' = reloads c.

(** ** [initQueries], [LoadMetricsByMetricConf], [GetMetrics]
       (product.go, lines 218-230, 77-82, 38-40) *)

(** The loop of lines 220-227: a query for every entry of the registry,
    whatever its load time; it leaves the function on the first query that
    cannot be built.  The entry is dereferenced for [q.Metric.SeriesCache]. *)
Fixpoint initLoop (entries : list (string * loc)) : M (option error) :=
  match entries with
  | [] => ret None
  | (_, m) :: rest =>
      let* obj := deref m in
      let* c := get in
      match NewQuery m obj (MetricRepo c) with
      | inr e => ret (Some e)
      | inl q =>
          do modify (set_Queries (fun qs => qs ++ [q])) in
          initLoop rest
      end
  end.

Definition initQueries : M (option error) :=
  let* c := get in
  let* r := initLoop (RangeOrder E (MetricMap c)) in
  match r with
  | Some e => ret (Some e)
  | None => do log Info "Init all query ok" in ret None
  end.

Definition LoadMetricsByMetricConf : M (option error) :=
  do modify (fun c => if size (MetricMap c) =? 0
                      then set_MetricMap (fun _ => ∅) c else c) in
  ret None.

Definition GetMetrics : M (option error) := ret None.

(** ** [NewKscProductCollector] (product.go, lines 271-322)

    What the constructor calls besides the collaborators of the cycle:
    [handlerFactoryMap] (a factory builds the handler or fails; it is handed
    the collector, of which it is taken to keep the pointer only),
    [constant.NotSupportInstanceNamespaces], the [instance] package and the
    [ReloadIntervalMinutes] field of the product configuration.  A
    [time.Duration] is an [int64] count of nanoseconds. *)

Context {InstanceRepository : Type}.

Record Factory := {
  handlerFactoryMap : string -> option (World -> option error * World);
  NotSupportInstanceNamespaces : list string;
  NewInstanceRepository : string -> World -> (InstanceRepository + error) * World;
  NewInstanceCache : InstanceRepository -> Z -> World -> InstanceRepository * World;
  ReloadIntervalMinutes : ProductConf -> Z
}.

Variable F : Factory.

(** [int64(time.Minute)] *)
Definition Minute : Z := 60000000000%Z.

(** What the constructor returns, and what it has done to the logger and to
    the outside world by then. *)
Record Constructed := {
  built : (KscProductCollector * option InstanceRepository) + error;
  logged : list LogEntry;
  outside : World
}.

(** Lines 284-296.  [productConf] is a pointer, [None] when it is nil; it
    is dereferenced at line 294, once the instance repository is there, and a
    nil one panics. *)
Definition newInstanceRepoCache (namespace : string)
    (productConf : option ProductConf) (w : World)
    : option ((option InstanceRepository + error) * World) :=
  if negb (IsStrInList (NotSupportInstanceNamespaces F) namespace)
  then
    let r := NewInstanceRepository F namespace w in
    match r.1 with
    | inr err => Some (inr err, r.2)
    | inl instanceRepo =>
        match productConf with
        | None => None
        | Some pc =>
            let reloadInterval := wrap64 (ReloadIntervalMinutes F pc * Minute) in
            let cr := NewInstanceCache F instanceRepo reloadInterval r.2 in
            Some (inl (Some cr.1), cr.2)
        end
    end
  else Some (inl None, w).

(** The collector of lines 298-305: no registry, no query. *)
Definition newCollector (namespace : string) (metricRepo : Repo)
    (log0 : list LogEntry) (w : World) : KscProductCollector :=
  {| Namespace := namespace; MetricRepo := metricRepo;
     MetricMap := ∅; Queries := []; Heap := [];
     Logged := log0; Outside := w |}.

(** Lines 313-319. *)
Definition cycleZeroOf : M (option error) :=
  let* err := LoadMetricsByMetricConf in
  match err with
  | Some e => ret (Some e)
  | None => LoadMetricsByProductConf
  end.

Definition NewKscProductCollector (namespace : string) (metricRepo : Repo)
    (productConf : option ProductConf) (log0 : list LogEntry) (w : World)
    : option Constructed :=
  match handlerFactoryMap F namespace with
  | None =>
      Some {| built := inr ("product handler not found, Namespace=" +:+ namespace +:+ " ");
              logged := log0; outside := w |}
  | Some factory =>
      match newInstanceRepoCache namespace productConf w with
      | None => None
      | Some (inr err, w1) =>
          Some {| built := inr err; logged := log0; outside := w1 |}
      | Some (inl instanceRepoCache, w1) =>
          let hr := factory w1 in
          match hr.1 with
          | Some err => Some {| built := inr err; logged := log0; outside := hr.2 |}
          | None =>
              match cycleZeroOf (newCollector namespace metricRepo log0 hr.2) with
              | None => None
              | Some (Some err, c') =>
                  Some {| built := inr err; logged := Logged c'; outside := Outside c' |}
              | Some (None, c') =>
                  Some {| built := inl (c', instanceRepoCache);
                          logged := Logged c'; outside := Outside c' |}
              end
          end
      end
  end.

(** ** Specification vocabulary *)

(** Partial correctness against a relation between the state before and
    the state after. *)
Definition preserves {A} (R : KscProductCollector -> KscProductCollector -> Prop)
    (m : M A) : Prop :=
  forall c a c', m c = Some (a, c') -> R c c'.

(** Total correctness: from a state satisfying [P] the computation does not
    panic and ends in a state satisfying [Q]. *)
Definition hoare {A} (P : KscProductCollector -> Prop) (m : M A)
    (Q : A -> KscProductCollector -> Prop) : Prop :=
  forall c, P c -> exists a c', m c = Some (a, c') /\ Q a c'.

(** Every pointer of the registry points to an object. *)
Definition wf (c : KscProductCollector) : Prop :=
  forall k p, MetricMap c !! k = Some p -> p < length (Heap c).

(** What loading metrics leaves alone. *)
Definition sameQueries (c c' : KscProductCollector) : Prop :=
  Namespace c' = Namespace c /\ MetricRepo c' = MetricRepo c /\
  Queries c' = Queries c.

(** The freshness test of line 126, on the object a pointer leads to. *)
Definition isFresh (currentTime : Z) (heap : list Metric) (p : loc) : bool :=
  match heap !! p with
  | Some obj => (wrap64 (currentTime - LoadTimeAt E obj) <? 60)%Z
  | None => false
  end.

Definition freshEntries (currentTime : Z) (heap : list Metric)
    (entries : list (string * loc)) : list (string * loc) :=
  filter (fun e => isFresh currentTime heap e.2 = true) entries.

Definition queriesFor (repo : Repo) (entries : list (string * loc)) : list Query :=
  map (fun e => {| QMetric := e.2; QRepo := repo |}) entries.

(** The query of a registry entry can be built. *)
Definition buildable (heap : list Metric) (repo : Repo) (e : string * loc) : Prop :=
  exists obj, heap !! e.2 = Some obj /\ NewQueryErr E obj repo = None.

(** How the query loop ends on the fresh entries [fresh]: it has built the
    queries of [built], which are either all of them, or those in front of
    the first entry whose query could not be built, the error of which is
    returned. *)
Definition queryLoopOutcome (heap : list Metric) (repo : Repo)
    (fresh built : list (string * loc)) (r : option error) : Prop :=
  Forall (buildable heap repo) built /\
  match r with
  | None => built = fresh
  | Some e =>
      exists k p obj rest,
        fresh = built ++ (k, p) :: rest /\
        heap !! p = Some obj /\ NewQueryErr E obj repo = Some e
  end.

(** What only the logger, the queries or the outside world can tell apart. *)
Definition sameStore (c c' : KscProductCollector) : Prop :=
  MetricMap c' = MetricMap c /\ Heap c' = Heap c.

(** Every entry of the registry keeps its pointer and no object is dropped. *)
Definition keepsRegistry (c c' : KscProductCollector) : Prop :=
  (forall k p, MetricMap c !! k = Some p -> MetricMap c' !! k = Some p) /\
  length (Heap c) <= length (Heap c').

(** The keys a pass over instances satisfying [P] may write. *)
Definition keyOf (P : Instance -> Prop) (k : string) : Prop :=
  exists ins meta, P ins /\ k = metricKey (MetricName E meta) (GetInstanceID E ins).

(** The objects reached only through other keys are as they were. *)
Definition sparesOthers (P : Instance -> Prop) (c c' : KscProductCollector) : Prop :=
  length (Heap c) <= length (Heap c') /\
  (forall k q, MetricMap c' !! k = Some q -> q < length (Heap c) ->
               MetricMap c !! k = Some q) /\
  (forall p, p < length (Heap c) ->
             (forall k, MetricMap c !! k = Some p -> ~ keyOf P k) ->
             Heap c' !! p = Heap c !! p).

(** Whatever is new in the registry is the key of an instance satisfying [P]
    and of a metric that [ex] does not exclude. *)
Definition addsOnly (P : Instance -> Prop) (ex : list string)
    (c c' : KscProductCollector) : Prop :=
  forall k p, MetricMap c' !! k = Some p ->
    MetricMap c !! k = Some p \/
    exists ins meta,
      P ins /\ isExcluded ex meta = false /\
      k = metricKey (MetricName E meta) (GetInstanceID E ins).

(** Nothing is taken out of the log. *)
Definition logGrows (c c' : KscProductCollector) : Prop :=
  Logged c `prefix_of` Logged c'.

(** What it means that a cycle ending in [c'] has processed the instances
    [kept], and only them, from the state [c0] on: the per-instance step of
    [loadMetrics] has run on them one after the other, in this order; every
    one of them had its turn right after those in front of it, and what its
    turn registered is still registered at the end; registry and objects at
    the end are those the last turn left; and a key that is new belongs to one
    of them. *)
Definition processes (pc : ProductConf) (kept : list Instance)
    (c0 c' : KscProductCollector) : Prop :=
  (exists c3,
     forEach (loadInstance pc (lowerExcludes pc)) kept c0 = Some (tt, c3) /\
     MetricMap c' = MetricMap c3 /\ Heap c' = Heap c3) /\
  (forall i ins,
     kept !! i = Some ins ->
     exists ca cb,
       forEach (loadInstance pc (lowerExcludes pc)) (take i kept) c0
         = Some (tt, ca) /\
       loadInstance pc (lowerExcludes pc) ins ca = Some (tt, cb) /\
       keepsRegistry cb c') /\
  (forall k p,
     MetricMap c' !! k = Some p ->
     MetricMap c0 !! k = Some p \/ keyOf (fun ins => ins ∈ kept) k).

(** No two keys of the registry share an object. *)
Definition distinctObjects (c : KscProductCollector) : Prop :=
  forall k1 k2 p,
    MetricMap c !! k1 = Some p -> MetricMap c !! k2 = Some p -> k1 = k2.

(** Every query points to an object. *)
Definition validQueries (c : KscProductCollector) : Prop :=
  Forall (fun q => QMetric q < length (Heap c)) (Queries c).

End Collector.

Arguments Query : clear implicits.
Arguments Env : clear implicits.
Arguments KscProductCollector : clear implicits.
Arguments Task : clear implicits.
Arguments Scrape : clear implicits.
Arguments Factory : clear implicits.
Arguments Constructed : clear implicits.

(** ** A small deployment

    Concrete collaborators, used to run the model: metadata entries and
    instances are their names, a metric remembers when it was built and which
    series it holds, and the outside world is a clock together with the
    answers the repositories currently give. *)

Module Deployment.

Record TMetric := { tname : string; tloaded : Z; tseries : list string }.

Record TWorld := {
  clock : Z;
  fleet : list string * option error;
  catalogue : string -> list string * option error;
  excluded : list string
}.

Definition lowerAscii (a : ascii) : ascii :=
  let n := nat_of_ascii a in
  if (65 <=? n) && (n <=? 90) then ascii_of_nat (n + 32) else a.

Fixpoint lower (s : string) : string :=
  match s with
  | EmptyString => EmptyString
  | String a rest => String (lowerAscii a) (lower rest)
  end.

Definition env : Env string unit TMetric string string (list string) unit (nat * loc) TWorld :=
  {| MetricName := fun meta => meta;
     LoadTimeAt := tloaded;
     ExcludeMetrics := fun pc => pc;
     GetInstanceID := fun ins => ins;
     ToLower := lower;
     IsSupportMultiDimensionNamespace := fun ns => String.eqb ns "KEC";
     DefaultSupportInstances := 2;
     DefaultQueryMetricBatchSize := 2;
     DefaultKS3QueryMetricBatchSize := 1;
     GetProductConfig := fun ns w =>
       if String.eqb ns "" then inr "product config not found" else inl (excluded w);
     ReloadIAMProjects := fun w => (None, w);
     GetInstances := fun w => (fleet w, w);
     GetSeriesByInstances := fun _ ins w => ((ins, None), w);
     ListMetrics := fun _ id w => (catalogue w id, w);
     NewMetricConfigWithProductYaml := fun _ meta =>
       if String.eqb meta "" then inr "metric without a name" else inl tt;
     NewMetric := fun meta _ w =>
       (inl {| tname := meta; tloaded := clock w; tseries := [] |}, w);
     LoadSeries := fun m ss w =>
       (({| tname := tname m; tloaded := tloaded m; tseries := ss |}, None), w);
     NewQueryErr := fun m _ =>
       if String.eqb (tname m) "broken" then Some "query refused" else None;
     GetPromMetricsByQueries := fun i qs =>
       if i =? 1 then ([], Some "fetch failed")
       else (map (fun q => (i, QMetric q)) qs, None);
     Now := fun w => (clock w, w);
     Sleep := fun d w =>
       {| clock := (clock w + d / 1000000000)%Z; fleet := fleet w;
          catalogue := catalogue w; excluded := excluded w |};
     RangeOrder := map_to_list |}.

Definition world (t : Z) (instances : list string) (metas : list string) : TWorld :=
  {| clock := t; fleet := (instances, None);
     catalogue := fun _ => (metas, None); excluded := [] |}.

(** The collector as [NewKscProductCollector] leaves it before cycle zero. *)
Definition blank (ns : string) (w : TWorld) : KscProductCollector TMetric unit TWorld :=
  {| Namespace := ns; MetricRepo := tt; MetricMap := ∅; Queries := [];
     Heap := []; Logged := []; Outside := w |}.

(** The state a computation ends in ([d] if it panics). *)
Definition after {A} (r : option (A * KscProductCollector TMetric unit TWorld))
    (d : KscProductCollector TMetric unit TWorld) : KscProductCollector TMetric unit TWorld :=
  match r with
  | Some (_, c) => c
  | None => d
  end.

Definition query (p : loc) : Query unit := {| QMetric := p; QRepo := tt |}.

(** One instance with one metric, discovered at time 1000. *)
Definition start : KscProductCollector TMetric unit TWorld :=
  blank "KEC" (world 1000 ["i-1"] ["cpu"]).

Definition cycleZero : KscProductCollector TMetric unit TWorld :=
  after (LoadMetricsByProductConf env start) start.

(** Five minutes later a second instance has appeared. *)
Definition grown : KscProductCollector TMetric unit TWorld :=
  set_Outside (world 1300 ["i-1"; "i-2"] ["cpu"]) cycleZero.

(** Sixty seconds after cycle zero the instance is gone. *)
Definition atSixty : KscProductCollector TMetric unit TWorld :=
  set_Outside (world 1060 [] ["cpu"]) cycleZero.

(** An instance whose metric cannot be queried. *)
Definition unqueryable : KscProductCollector TMetric unit TWorld :=
  blank "KEC" (world 1000 ["i-1"] ["cpu"; "broken"]).

(** Three instances; the listing for the second one fails. *)
Definition listing (answer : list string * option error) : TWorld :=
  {| clock := 1000; fleet := (["i-1"; "i-2"; "i-3"], None);
     catalogue := fun id => if String.eqb id "i-2" then answer else (["cpu"], None);
     excluded := [] |}.

(** The only metric on offer is on the exclusion list. *)
Definition allExcluded : TWorld :=
  {| clock := 1000; fleet := (["i-1"], None);
     catalogue := fun _ => (["CPU"], None); excluded := ["Cpu"] |}.

(** Three instances in a namespace that bounds them to two. *)
Definition crowded : KscProductCollector TMetric unit TWorld :=
  blank "KEC" (world 1000 ["i-1"; "i-2"; "i-3"] ["cpu"]).

(** Three queries in a namespace with batches of two. *)
Definition threeQueries : KscProductCollector TMetric unit TWorld :=
  after (LoadMetricsByProductConf env
           (blank "KCP" (world 1000 ["i-1"; "i-2"; "i-3"] ["cpu"])))
        start.

(** Five minutes after cycle zero the instance listing is down. *)
Definition down : KscProductCollector TMetric unit TWorld :=
  set_Outside {| clock := 1300; fleet := ([], Some "listing failed");
                 catalogue := fun _ => (["cpu"], None); excluded := [] |}
              cycleZero.

(** A collector whose namespace has no product configuration. *)
Definition unconfigured : KscProductCollector TMetric unit TWorld :=
  blank "" (world 1000 ["i-1"] ["cpu"]).

(** The same collaborators with a [metric] package that builds every query. *)
Definition lenient : Env string unit TMetric string string (list string) unit (nat * loc) TWorld :=
  {| MetricName := MetricName env;
     LoadTimeAt := LoadTimeAt env;
     ExcludeMetrics := ExcludeMetrics env;
     GetInstanceID := GetInstanceID env;
     ToLower := ToLower env;
     IsSupportMultiDimensionNamespace := IsSupportMultiDimensionNamespace env;
     DefaultSupportInstances := DefaultSupportInstances env;
     DefaultQueryMetricBatchSize := DefaultQueryMetricBatchSize env;
     DefaultKS3QueryMetricBatchSize := DefaultKS3QueryMetricBatchSize env;
     GetProductConfig := GetProductConfig env;
     ReloadIAMProjects := ReloadIAMProjects env;
     GetInstances := GetInstances env;
     GetSeriesByInstances := GetSeriesByInstances env;
     ListMetrics := ListMetrics env;
     NewMetricConfigWithProductYaml := NewMetricConfigWithProductYaml env;
     NewMetric := NewMetric env;
     LoadSeries := LoadSeries env;
     NewQueryErr := fun _ _ => None;
     GetPromMetricsByQueries := GetPromMetricsByQueries env;
     Now := Now env;
     Sleep := Sleep env;
     RangeOrder := RangeOrder env |}.

(** The constructor's collaborators: three namespaces have a handler
    factory, the one of EPC fails; KS3 has no instance discovery; an instance
    repository is its namespace, and its cache remembers the reload interval. *)
Definition factory : Factory (list string) TWorld (string * Z) :=
  {| handlerFactoryMap := fun ns =>
       if bool_decide (ns ∈ ["KEC"; "KS3"; "EPC"])
       then Some (fun w => (if String.eqb ns "EPC" then Some "handler refused" else None, w))
       else None;
     NotSupportInstanceNamespaces := ["KS3"];
     NewInstanceRepository := fun ns w => (inl (ns, 0%Z), w);
     NewInstanceCache := fun repo reloadInterval w => ((repo.1, reloadInterval), w);
     ReloadIntervalMinutes := fun _ => 10%Z |}.

End Deployment.

(** ** Reasoning about computations in [M] *)

Section Reasoning.

Context {Metric Repo World : Type}.

#[local] Abbreviation Coll := (KscProductCollector Metric Repo World).
#[local] Abbreviation Comp := (@M Metric Repo World).

Implicit Types c : Coll.

Lemma bind_Some {A B} (m : Comp A) (k : A -> Comp B) c b c' :
  bind m k c = Some (b, c') <->
  exists a c1, m c = Some (a, c1) /\ k a c1 = Some (b, c').
Proof.
  unfold bind. split.
  - destruct (m c) as [[a c1]|]; [eauto | discriminate].
  - intros (a & c1 & -> & H). exact H.
Qed.

Lemma forEach_app {A} (body : A -> Comp unit) (xs ys : list A) c :
  forEach body (xs ++ ys) c = bind (forEach body xs) (fun _ => forEach body ys) c.
Proof.
  revert c. induction xs as [|x xs IH]; intros c; simpl.
  - reflexivity.
  - unfold bind in *. destruct (body x c) as [[[] c1]|]; [|reflexivity].
    apply IH.
Qed.

Section Preserves.
Variable R : Coll -> Coll -> Prop.
Hypothesis R_refl : forall c, R c c.
Hypothesis R_trans : forall c1 c2 c3, R c1 c2 -> R c2 c3 -> R c1 c3.

Lemma preserves_ret {A} (a : A) : preserves R (ret a).
Proof. intros c a' c' [= _ <-]. apply R_refl. Qed.

Lemma preserves_get : preserves R get.
Proof. intros c a' c' [= _ <-]. apply R_refl. Qed.

Lemma preserves_bind {A B} (m : Comp A) (k : A -> Comp B) :
  preserves R m -> (forall a, preserves R (k a)) -> preserves R (bind m k).
Proof.
  intros Hm Hk c b c' (a & c1 & H1 & H2)%bind_Some.
  eapply R_trans; [eapply Hm | eapply Hk]; eassumption.
Qed.

Lemma preserves_forEach {A} (body : A -> Comp unit) xs :
  (forall x, preserves R (body x)) -> preserves R (forEach body xs).
Proof.
  intros Hb. induction xs as [|x xs IH]; simpl.
  - apply preserves_ret.
  - apply preserves_bind; [apply Hb | intros _; apply IH].
Qed.
End Preserves.

Lemma hoare_ret {A} (P : Coll -> Prop) (a : A) (Q : A -> Coll -> Prop) :
  (forall c, P c -> Q a c) -> hoare P (ret a) Q.
Proof. intros H c Hc. exists a, c. split; [reflexivity | auto]. Qed.

Lemma hoare_bind {A B} (P : Coll -> Prop) (m : Comp A) (Q : A -> Coll -> Prop)
    (k : A -> Comp B) (S : B -> Coll -> Prop) :
  hoare P m Q -> (forall a, hoare (Q a) (k a) S) -> hoare P (bind m k) S.
Proof.
  intros Hm Hk c Hc. destruct (Hm c Hc) as (a & c1 & E1 & Hq).
  destruct (Hk a c1 Hq) as (b & c2 & E2 & Hs).
  exists b, c2. split; [|exact Hs]. unfold bind. rewrite E1. exact E2.
Qed.

Lemma hoare_modify (P : Coll -> Prop) f (Q : unit -> Coll -> Prop) :
  (forall c, P c -> Q tt (f c)) -> hoare P (modify f) Q.
Proof. intros H c Hc. exists tt, (f c). split; [reflexivity | auto]. Qed.

Lemma hoare_forEach {A} (I : Coll -> Prop) (body : A -> Comp unit) xs :
  (forall x, hoare I (body x) (fun _ => I)) ->
  hoare I (forEach body xs) (fun _ => I).
Proof.
  intros Hb. induction xs as [|x xs IH]; simpl.
  - apply hoare_ret. auto.
  - eapply hoare_bind; [apply Hb | intros []; apply IH].
Qed.

End Reasoning.

(** ** Facts about the reload cycle *)

Section CycleFacts.

Context {Meta MetricConfig Metric Series Instance ProductConf Repo Sample World : Type}.
Variable E : Env Meta MetricConfig Metric Series Instance ProductConf Repo Sample World.

#[local] Abbreviation Coll' := (KscProductCollector Metric Repo World).

#[local] Abbreviation SQ := (@sameQueries Metric Repo World).

Implicit Types c : Coll'.

Ltac run :=
  unfold logIfErr, log, store in *;
  unfold bind, ret, get, modify, call, alloc, deref in *;
  simpl in *.

Lemma sameQueries_refl c : SQ c c.
Proof. by repeat split. Qed.

Lemma sameQueries_trans c1 c2 c3 :
  SQ c1 c2 -> SQ c2 c3 -> SQ c1 c3.
Proof. intros (?&?&?) (?&?&?). repeat split; congruence. Qed.

Lemma sameQueries_call {A} (f : World -> A * World) :
  preserves SQ (call f).
Proof. intros c a c' H. run. simplify_eq. unfold sameQueries; simpl; auto. Qed.

Lemma sameQueries_log l m : preserves SQ (log l m).
Proof. intros c a c' H. run. simplify_eq. unfold sameQueries; simpl; auto. Qed.

Lemma sameQueries_logIfErr e l m : preserves SQ (logIfErr e l m).
Proof.
  destruct e; [apply sameQueries_log|].
  intros c a c' H. run. simplify_eq. unfold sameQueries; simpl; auto.
Qed.

Lemma sameQueries_alloc (m : Metric) : preserves SQ (alloc m).
Proof. intros c a c' H. run. simplify_eq. unfold sameQueries; simpl; auto. Qed.

Lemma sameQueries_deref p : preserves SQ (@deref Metric Repo World p).
Proof.
  intros c a c' H. unfold deref in H.
  destruct (Heap c !! p); simplify_eq. unfold sameQueries; simpl; auto.
Qed.

Lemma sameQueries_store p (m : Metric) : preserves SQ (store p m).
Proof. intros c a c' H. run. simplify_eq. unfold sameQueries; simpl; auto. Qed.

Lemma sameQueries_set_MetricMap f :
  preserves SQ (modify (@set_MetricMap Metric Repo World f)).
Proof. intros c a c' H. run. simplify_eq. unfold sameQueries; simpl; auto. Qed.

Create HintDb frame discriminated.

Ltac pres :=
  repeat first
    [ solve [auto 1 with frame nocore]
    | apply (preserves_ret _ sameQueries_refl)
    | apply (preserves_get _ sameQueries_refl)
    | apply sameQueries_call
    | apply sameQueries_logIfErr
    | apply sameQueries_log
    | apply sameQueries_alloc
    | apply sameQueries_deref
    | apply sameQueries_store
    | apply sameQueries_set_MetricMap
    | apply (preserves_bind _ sameQueries_trans); [|intros ?]
    | apply (preserves_forEach _ sameQueries_refl sameQueries_trans); intros ?
    | match goal with
      | |- preserves _ (match ?x with _ => _ end) => destruct x
      end ].

Lemma createMetricWithMeta_sameQueries meta pc id :
  preserves SQ (createMetricWithMeta E meta pc id).
Proof. unfold createMetricWithMeta. pres. Qed.
#[local] Hint Resolve createMetricWithMeta_sameQueries : frame.

Lemma loadMeta_sameQueries pc ex ins meta :
  preserves SQ (loadMeta E pc ex ins meta).
Proof. unfold loadMeta. pres. Qed.
#[local] Hint Resolve loadMeta_sameQueries : frame.

Lemma loadInstance_sameQueries pc ex ins :
  preserves SQ (loadInstance E pc ex ins).
Proof. unfold loadInstance. pres. Qed.
#[local] Hint Resolve loadInstance_sameQueries : frame.

Lemma loadMetrics_sameQueries instances :
  preserves SQ (loadMetrics E instances).
Proof. unfold loadMetrics. pres. Qed.

Lemma boundInstances_sameQueries instances :
  preserves SQ (boundInstances E instances).
Proof. unfold boundInstances. pres. Qed.

(** *** The query loop *)

Lemma rangeQueries_spec now entries c r c' :
  rangeQueries E now entries c = Some (r, c') ->
  exists visited,
    c' = set_Queries (fun _ => Queries c ++ queriesFor (MetricRepo c) visited) c /\
    visited `prefix_of` freshEntries E now (Heap c) entries /\
    (r = None -> visited = freshEntries E now (Heap c) entries).
Proof.
  revert c. induction entries as [|[k p] rest IH]; intros c H; simpl in H.
  - run. simplify_eq. exists []. simpl. rewrite app_nil_r.
    split; [by match goal with |- ?x = _ => destruct x end | done].
  - apply bind_Some in H as (obj & c1 & Hd & H).
    unfold deref in Hd. destruct (Heap c !! p) as [obj'|] eqn:Hp; simplify_eq.
    assert (Hfr : isFresh E now (Heap c1) p
                  = (wrap64 (now - LoadTimeAt E obj) <? 60)%Z)
      by (unfold isFresh; by rewrite Hp).
    unfold freshEntries. rewrite filter_cons. simpl.
    destruct (wrap64 (now - LoadTimeAt E obj) <? 60)%Z eqn:Hf.
    + rewrite decide_True by done.
      unfold NewQuery in H. run.
      destruct (NewQueryErr E obj (MetricRepo c1)) as [e|] eqn:Hq.
      * simplify_eq. exists []. simpl. rewrite app_nil_r.
        split; [by match goal with |- ?x = _ => destruct x end|].
        split; [apply prefix_nil | done].
      * apply IH in H as (visited & -> & Hpre & Hall). simpl in *.
        exists ((k, p) :: visited). simpl. rewrite <- app_assoc. simpl.
        split; [reflexivity|]. split; [by apply prefix_cons|].
        intros ->. by rewrite Hall.
    + rewrite decide_False by congruence.
      apply IH in H as (visited & -> & Hpre & Hall). eauto.
Qed.

Lemma rangeQueries_outcome now entries c r c' :
  rangeQueries E now entries c = Some (r, c') ->
  exists built,
    c' = set_Queries (fun _ => Queries c ++ queriesFor (MetricRepo c) built) c /\
    queryLoopOutcome E (Heap c) (MetricRepo c)
      (freshEntries E now (Heap c) entries) built r.
Proof.
  revert c. induction entries as [|[k p] rest IH]; intros c H; simpl in H.
  - run. simplify_eq. exists []. simpl. rewrite app_nil_r.
    split; [by match goal with |- ?x = _ => destruct x end|]. by split.
  - apply bind_Some in H as (obj & c1 & Hd & H).
    unfold deref in Hd. destruct (Heap c !! p) as [obj'|] eqn:Hp; simplify_eq.
    assert (Hfr : isFresh E now (Heap c1) p
                  = (wrap64 (now - LoadTimeAt E obj) <? 60)%Z)
      by (unfold isFresh; by rewrite Hp).
    unfold freshEntries. rewrite filter_cons. simpl.
    destruct (wrap64 (now - LoadTimeAt E obj) <? 60)%Z eqn:Hf.
    + rewrite decide_True by done.
      unfold NewQuery in H. run.
      destruct (NewQueryErr E obj (MetricRepo c1)) as [e|] eqn:Hq.
      * simplify_eq. exists []. simpl. rewrite app_nil_r.
        split; [by match goal with |- ?x = _ => destruct x end|].
        split; [done|]. eexists k, p, obj, _. split; [reflexivity|]. by split.
      * apply IH in H as (built & -> & Hall & Hend). simpl in *.
        exists ((k, p) :: built). simpl. rewrite <- app_assoc. simpl.
        split; [reflexivity|]. split.
        -- apply Forall_cons. split; [by exists obj | done].
        -- destruct r as [e|].
           ++ destruct Hend as (k' & p' & obj' & rest' & Hfresh & Hp' & He).
              exists k', p', obj', rest'. unfold freshEntries in Hfresh.
              by rewrite Hfresh.
           ++ unfold freshEntries in Hend. by rewrite Hend.
    + rewrite decide_False by congruence.
      apply IH in H as (built & -> & Hout). eauto.
Qed.

(** *** The whole cycle *)

Lemma loadFromInstances_queries instances c r c' :
  loadFromInstances E instances c = Some (r, c') ->
  exists qs,
    Queries c' = Queries c ++ qs /\
    (r = None ->
     exists w now,
       Now E w = (now, Outside c') /\
       qs = queriesFor (MetricRepo c)
              (freshEntries E now (Heap c') (RangeOrder E (MetricMap c')))).
Proof.
  unfold loadFromInstances. intros H.
  apply bind_Some in H as (err & c1 & Hl & H).
  apply loadMetrics_sameQueries in Hl as (Hns & Hrepo & Hq).
  destruct err as [e|].
  - run. simplify_eq. exists []. rewrite app_nil_r. split; [done | discriminate].
  - run. destruct (rangeQueries E _ _ _) as [[r' c2]|] eqn:Hr; [|discriminate].
    apply rangeQueries_spec in Hr as (visited & -> & Hpre & Hall). simpl in *.
    destruct r' as [e|]; simplify_eq; simpl.
    + rewrite Hq, Hrepo. eexists. split; [done | discriminate].
    + rewrite Hq, Hrepo. eexists. split; [done|]. intros _.
      exists (Outside c1), (Now E (Outside c1)).1.
      split; [by destruct (Now E (Outside c1))|]. by rewrite Hall.
Qed.

Lemma snapshotInstances_sameQueries :
  preserves SQ (snapshotInstances E).
Proof.
  unfold snapshotInstances. pres.
  intros c0 [] c0' H. run. simplify_eq.
  destruct (size _ =? 0); unfold sameQueries; simpl; auto.
Qed.

Lemma LoadMetricsByProductConf_inv c r c' :
  LoadMetricsByProductConf E c = Some (r, c') ->
  exists ir c1,
    snapshotInstances E c = Some (ir, c1) /\ SQ c c1 /\
    match ir.2 with
    | Some e => r = Some e /\ c' = c1
    | None =>
        exists instances c2,
          boundInstances E ir.1 c1 = Some (instances, c2) /\ SQ c c2 /\
          loadFromInstances E instances c2 = Some (r, c')
    end.
Proof.
  unfold LoadMetricsByProductConf. intros H.
  apply bind_Some in H as (ir & c1 & Hs & H).
  exists ir, c1. split; [done|].
  pose proof (snapshotInstances_sameQueries _ _ _ Hs) as Hsq.
  split; [done|]. destruct ir.2 as [e|].
  - run. by simplify_eq.
  - apply bind_Some in H as (instances & c2 & Hb & H).
    exists instances, c2. split; [done|]. split; [|done].
    eapply sameQueries_trans; [exact Hsq|].
    eapply boundInstances_sameQueries, Hb.
Qed.

Lemma cycle_queries c r c' :
  LoadMetricsByProductConf E c = Some (r, c') ->
  exists qs,
    Queries c' = Queries c ++ qs /\
    (r = None ->
     exists w now,
       Now E w = (now, Outside c') /\
       qs = queriesFor (MetricRepo c)
              (freshEntries E now (Heap c') (RangeOrder E (MetricMap c')))).
Proof.
  intros (ir & c1 & _ & (_ & _ & Hq1) & H)%LoadMetricsByProductConf_inv.
  destruct ir.2 as [e|].
  - destruct H as [-> ->]. exists []. rewrite app_nil_r. split; [done | discriminate].
  - destruct H as (instances & c2 & _ & (_ & Hrepo & Hq2) & H).
    apply loadFromInstances_queries in H as (qs & Hqs & Hfresh).
    exists qs. rewrite <- Hq2, <- Hrepo. done.
Qed.

(** The result of a cycle, read off the answers it got: the error of the
    instance listing, or else that of the product configuration, or else the
    way the query loop ended. *)
Lemma cycle_outcome c r c' :
  LoadMetricsByProductConf E c = Some (r, c') ->
  match (GetInstances E (ReloadIAMProjects E (Outside c)).2).1.2 with
  | Some e => r = Some e
  | None =>
      match GetProductConfig E (Namespace c)
              (GetInstances E (ReloadIAMProjects E (Outside c)).2).2 with
      | inr e => r = Some e
      | inl _ =>
          exists w built,
            Outside c' = (Now E w).2 /\
            Queries c' = Queries c ++ queriesFor (MetricRepo c) built /\
            queryLoopOutcome E (Heap c') (MetricRepo c)
              (freshEntries E (Now E w).1 (Heap c') (RangeOrder E (MetricMap c')))
              built r
      end
  end.
Proof.
  intros (ir & c1 & Hs & _ & H)%LoadMetricsByProductConf_inv.
  assert (Hir : ir = (GetInstances E (ReloadIAMProjects E (Outside c)).2).1 /\
                Outside c1 = (GetInstances E (ReloadIAMProjects E (Outside c)).2).2).
  { unfold snapshotInstances in Hs. run. simplify_eq.
    by destruct (size (MetricMap c) =? 0). }
  destruct Hir as [<- <-].
  destruct ir.2 as [e|]; [by destruct H|].
  destruct H as (instances & c2 & Hb & (Hns2 & Hrepo2 & Hq2) & H).
  assert (Hout : Outside c2 = Outside c1).
  { unfold boundInstances in Hb. run. repeat case_match; by simplify_eq. }
  rewrite <- Hout, <- Hns2.
  unfold loadFromInstances in H. apply bind_Some in H as (err & c3 & Hl & H).
  pose proof (loadMetrics_sameQueries _ _ _ _ Hl) as (_ & Hrepo3 & Hq3).
  assert (Herr : err = match GetProductConfig E (Namespace c2) (Outside c2) with
                       | inl _ => None
                       | inr e => Some e
                       end).
  { unfold loadMetrics in Hl. run.
    destruct (GetProductConfig E (Namespace c2) (Outside c2)); [|by simplify_eq].
    destruct (forEach _ _ _) as [[[] c4]|]; by simplify_eq. }
  destruct (GetProductConfig E (Namespace c2) (Outside c2)) as [pc|e]; subst err.
  2: { run. by simplify_eq. }
  run. destruct (rangeQueries E _ _ _) as [[r' c4]|] eqn:Hr; [|discriminate].
  apply rangeQueries_outcome in Hr as (built & -> & Hend). simpl in *.
  exists (Outside c3), built.
  destruct r' as [e|]; simplify_eq; simpl;
    (split; [done|]); (split; [by rewrite Hq3, Hq2, Hrepo3, Hrepo2|]);
    by rewrite <- Hrepo2, <- Hrepo3.
Qed.

Lemma wrap64_small z :
  (- 2 ^ 63 <= z < 2 ^ 63)%Z -> wrap64 z = z.
Proof. intros H. unfold wrap64. rewrite Z.mod_small; lia. Qed.

Lemma elem_of_queriesFor (repo : Repo) entries p :
  (exists q, q ∈ queriesFor repo entries /\ QMetric q = p) <->
  (exists k, (k, p) ∈ entries).
Proof.
  unfold queriesFor. split.
  - intros (q & Hin & <-). apply list_elem_of_fmap in Hin as ([k p'] & -> & Hin).
    by exists k.
  - intros (k & Hin). exists {| QMetric := p; QRepo := repo |}. split; [|done].
    apply list_elem_of_fmap. by exists (k, p).
Qed.

(** C1 (amended).  A reload cycle never drops a query: whatever it returns,
    the Query Set it leaves is the previous Query Set followed by what the
    cycle appended.  When the cycle succeeds, the appended part is exactly the
    queries built for the metrics of the registry that pass the freshness
    test at the cycle's clock reading, in the order the [range] visited them. *)
Theorem LoadMetricsByProductConf_appends_to_queries c r c' :
  LoadMetricsByProductConf E c = Some (r, c') ->
  Queries c `prefix_of` Queries c' /\
  (r = None ->
   exists w now,
     Now E w = (now, Outside c') /\
     Queries c' =
       Queries c ++
       queriesFor (MetricRepo c)
         (freshEntries E now (Heap c') (RangeOrder E (MetricMap c')))).
Proof.
  intros (qs & Hqs & Hfresh)%cycle_queries. split.
  - rewrite Hqs. by apply prefix_app_r.
  - intros Hr. destruct (Hfresh Hr) as (w & now & Hnow & ->). eauto.
Qed.

(** C2 (amended).  After a successful cycle, a metric of the registry gets a
    query appended by this cycle if and only if the clock reading of the cycle
    minus the metric's load time, computed in [int64], is strictly less than
    60.  A metric loaded 60 or more units before the reading gets none, and is
    still in the registry.  The [int64] difference is the plain difference
    unless it overflows.  The [range] over the registry is assumed to visit
    every entry once. *)
Theorem LoadMetricsByProductConf_fresh_iff c c' :
  (forall m, RangeOrder E m ≡ₚ map_to_list m) ->
  LoadMetricsByProductConf E c = Some (None, c') ->
  exists w now qs,
    Now E w = (now, Outside c') /\
    Queries c' = Queries c ++ qs /\
    forall k p obj,
      MetricMap c' !! k = Some p -> Heap c' !! p = Some obj ->
      ((exists q, q ∈ qs /\ QMetric q = p) <->
       (wrap64 (now - LoadTimeAt E obj) < 60)%Z) /\
      ((60 <= wrap64 (now - LoadTimeAt E obj))%Z ->
       (forall q, q ∈ qs -> QMetric q <> p) /\ MetricMap c' !! k = Some p) /\
      ((- 2 ^ 63 <= now - LoadTimeAt E obj < 2 ^ 63)%Z ->
       wrap64 (now - LoadTimeAt E obj) = (now - LoadTimeAt E obj)%Z).
Proof.
  intros Hperm (qs & Hqs & Hfresh)%cycle_queries.
  destruct (Hfresh eq_refl) as (w & now & Hnow & ->).
  exists w, now. eexists. split; [done|]. split; [done|].
  intros k p obj Hk Hp.
  assert (Hiff : (exists q, q ∈ queriesFor (MetricRepo c)
                     (freshEntries E now (Heap c') (RangeOrder E (MetricMap c')))
                   /\ QMetric q = p) <->
                 (wrap64 (now - LoadTimeAt E obj) < 60)%Z).
  { rewrite elem_of_queriesFor. unfold freshEntries. split.
    - intros (k' & Hin). apply list_elem_of_filter in Hin as [Hf _].
      simpl in Hf. unfold isFresh in Hf. rewrite Hp in Hf. lia.
    - intros Hlt. exists k. apply list_elem_of_filter. split.
      + simpl. unfold isFresh. rewrite Hp. lia.
      + rewrite Hperm. by apply elem_of_map_to_list. }
  split; [exact Hiff|]. split; [|apply wrap64_small].
  intros Hge. split; [|done].
  intros q Hq Hqp. assert (wrap64 (now - LoadTimeAt E obj) < 60)%Z; [|lia].
  apply Hiff. eauto.
Qed.

(** *** Loading never panics on a well-formed collector *)

Lemma logIfErr_run e l m c :
  exists c', logIfErr e l m c = Some (tt, c') /\
    MetricMap c' = MetricMap c /\ Heap c' = Heap c /\
    Queries c' = Queries c /\ Outside c' = Outside c.
Proof. destruct e; eexists; (split; [reflexivity|]); done. Qed.

Lemma createMetricWithMeta_wf meta pc id :
  hoare wf (createMetricWithMeta E meta pc id)
        (fun r c' => wf c' /\ forall p, r = inl p -> p < length (Heap c')).
Proof.
  intros c Hwf. unfold createMetricWithMeta. run.
  destruct (MetricMap c !! metricKey (MetricName E meta) id) as [p|] eqn:Hk.
  - eexists _, _. split; [reflexivity|]. split; [done|].
    intros ? [= <-]. by eapply Hwf.
  - destruct (NewMetricConfigWithProductYaml E pc meta) as [conf|e].
    + destruct (NewMetric E meta conf (Outside c)) as [[nm|e] w'] eqn:Hn; simpl.
      * eexists _, _. split; [reflexivity|]. split.
        -- intros k q Hq. simpl. rewrite length_app. simpl.
           specialize (Hwf k q Hq). lia.
        -- intros ? [= <-]. simpl. rewrite length_app. simpl. lia.
      * eexists _, _. split; [reflexivity|]. split; [done | discriminate].
    + eexists _, _. split; [reflexivity|]. split; [done | discriminate].
Qed.

Lemma loadMeta_wf pc ex ins meta :
  hoare wf (loadMeta E pc ex ins meta) (fun _ => wf).
Proof.
  intros c Hwf. unfold loadMeta.
  destruct (isExcluded E ex meta).
  { exists tt, c. done. }
  destruct (createMetricWithMeta_wf meta pc (GetInstanceID E ins) c Hwf)
    as (r & c1 & Hc & Hwf1 & Hp).
  unfold bind at 1. rewrite Hc. destruct r as [nm|e].
  - specialize (Hp nm eq_refl).
    destruct (lookup_lt_is_Some_2 _ _ Hp) as [obj Hobj].
    run. rewrite Hobj.
    repeat case_match; simplify_eq; (eexists _, _; split; [reflexivity|]);
      intros k q Hq; simpl in *; rewrite length_insert;
      revert Hq; rewrite lookup_insert; (case_decide; [by intros [= <-] | apply Hwf1]).
  - exists tt, (set_Logged (fun ls => ls ++ [{| lvl := Warn; msg := "Create metric fail" |}]) c1).
    done.
Qed.

Lemma loadInstance_wf pc ex ins :
  hoare wf (loadInstance E pc ex ins) (fun _ => wf).
Proof.
  intros c Hwf. unfold loadInstance. run.
  destruct (ListMetrics E _ _ _).1.2; simpl;
    (destruct (0 <? _);
     [ apply (hoare_forEach wf _ _ (loadMeta_wf pc ex ins)); exact Hwf
     | eexists _, _; split; [reflexivity | exact Hwf] ]).
Qed.

Lemma loadMetrics_wf instances :
  hoare wf (loadMetrics E instances)
        (fun r c' =>
           wf c' /\
           exists c, r = match GetProductConfig E (Namespace c) (Outside c) with
                         | inl _ => None
                         | inr e => Some e
                         end).
Proof.
  intros c Hwf. unfold loadMetrics. run.
  destruct (GetProductConfig E (Namespace c) (Outside c)) as [pc|e] eqn:Hpc.
  - destruct (hoare_forEach wf (loadInstance E pc (lowerExcludes E pc)) instances
                (loadInstance_wf pc (lowerExcludes E pc)) c Hwf)
      as ([] & c' & -> & Hwf').
    exists None, c'. split; [done|]. split; [done|]. exists c. by rewrite Hpc.
  - exists (Some e), c. split; [done|]. split; [done|]. exists c. by rewrite Hpc.
Qed.

(** C3.  When the key (metric name, instance id) is already in the registry,
    [createMetricWithMeta] returns the pointer stored there and touches
    nothing: no object is built and the object keeps its series cache and load
    time.  [loadMetrics] then stores that same pointer back under the key, so
    the registry is unchanged and no object is added; the series are loaded
    into the existing object in place.  A construction only happens when the
    key is absent: if [createMetricWithMeta] changes the heap at all, the key
    was not in the registry and the result is the one new object. *)
Theorem createMetricWithMeta_reuses_existing pc ex ins meta c p obj :
  MetricMap c !! metricKey (MetricName E meta) (GetInstanceID E ins) = Some p ->
  Heap c !! p = Some obj ->
  isExcluded E ex meta = false ->
  createMetricWithMeta E meta pc (GetInstanceID E ins) c = Some (inl p, c) /\
  (exists c',
     loadMeta E pc ex ins meta c = Some (tt, c') /\
     MetricMap c' = MetricMap c /\
     exists series w, Heap c' = <[p := (LoadSeries E obj series w).1.1]> (Heap c)) /\
  (forall c0 id r c0',
     createMetricWithMeta E meta pc id c0 = Some (r, c0') ->
     Heap c0' <> Heap c0 ->
     MetricMap c0 !! metricKey (MetricName E meta) id = None /\
     MetricMap c0' = MetricMap c0 /\
     exists nm, Heap c0' = Heap c0 ++ [nm] /\ r = inl (length (Heap c0))).
Proof.
  intros Hk Hp Hex. split; [|split].
  - unfold createMetricWithMeta. run. by rewrite Hk.
  - unfold loadMeta. rewrite Hex.
    unfold createMetricWithMeta. run. rewrite Hk. simpl. rewrite Hp. simpl.
    destruct (GetSeriesByInstances E obj [ins] (Outside c)).1.2; simpl;
      destruct (LoadSeries E obj _ _).1.2; simpl;
      (eexists; split; [reflexivity|]); simpl;
      (split; [by apply insert_id | eauto]).
  - intros c0 id r c0' H Hne. unfold createMetricWithMeta in H. run.
    destruct (MetricMap c0 !! metricKey (MetricName E meta) id) as [q|];
      [by simplify_eq|].
    split; [done|].
    destruct (NewMetricConfigWithProductYaml E pc meta) as [conf|e];
      [|by simplify_eq].
    destruct (NewMetric E meta conf (Outside c0)) as [[nm|e] w'];
      simpl in H; simplify_eq; try done.
    simpl. split; [done|]. by exists nm.
Qed.

(** C6 (amended).  A failure to construct a metric is logged and that
    metric is skipped; failures of series resolution and of series loading
    are logged too, the metric staying registered; none of them reaches the
    result of [loadMetrics], which returns an error only when the product
    configuration is missing.
    What [LoadMetricsByProductConf] returns is decided by three answers
    only.  If the instance listing failed, it returns that error; else, if the
    product configuration is missing, that error; else the query loop runs
    over the fresh entries of the registry, and the first query that cannot be
    constructed stops the loop: its error is returned, and only the queries in
    front of it have been appended.  The cycle returns nil exactly when none
    of the three happened, and then every fresh entry has its query. *)
Theorem per_item_errors_are_degraded :
  (forall pc ex ins meta c e c1,
     isExcluded E ex meta = false ->
     createMetricWithMeta E meta pc (GetInstanceID E ins) c = Some (inr e, c1) ->
     loadMeta E pc ex ins meta c =
       Some (tt, set_Logged
                   (fun ls => ls ++ [{| lvl := Warn; msg := "Create metric fail" |}]) c1) /\
     MetricMap c1 = MetricMap c /\ Heap c1 = Heap c) /\
  (forall pc ex ins meta c nm c1 obj,
     isExcluded E ex meta = false ->
     createMetricWithMeta E meta pc (GetInstanceID E ins) c = Some (inl nm, c1) ->
     Heap c1 !! nm = Some obj ->
     exists c',
       loadMeta E pc ex ins meta c = Some (tt, c') /\
       MetricMap c' !! metricKey (MetricName E meta) (GetInstanceID E ins) = Some nm /\
       Logged c' =
         Logged c1 ++
         match (GetSeriesByInstances E obj [ins] (Outside c1)).1.2 with
         | Some _ => [{| lvl := Error; msg := "create metric series err" |}]
         | None => []
         end ++
         [{| lvl := Debug; msg := "found remote instances" |}] ++
         match (LoadSeries E obj (GetSeriesByInstances E obj [ins] (Outside c1)).1.1
                  (GetSeriesByInstances E obj [ins] (Outside c1)).2).1.2 with
         | Some _ => [{| lvl := Error; msg := "load metric series err" |}]
         | None => []
         end) /\
  (forall instances c r c',
     loadMetrics E instances c = Some (r, c') ->
     r = match GetProductConfig E (Namespace c) (Outside c) with
         | inl _ => None
         | inr e => Some e
         end) /\
  (forall c r c',
     LoadMetricsByProductConf E c = Some (r, c') ->
     match (GetInstances E (ReloadIAMProjects E (Outside c)).2).1.2 with
     | Some e => r = Some e
     | None =>
         match GetProductConfig E (Namespace c)
                 (GetInstances E (ReloadIAMProjects E (Outside c)).2).2 with
         | inr e => r = Some e
         | inl _ =>
             exists w built,
               Outside c' = (Now E w).2 /\
               Queries c' = Queries c ++ queriesFor (MetricRepo c) built /\
               Forall (buildable E (Heap c') (MetricRepo c)) built /\
               match r with
               | None =>
                   built = freshEntries E (Now E w).1 (Heap c')
                             (RangeOrder E (MetricMap c'))
               | Some e =>
                   exists k p obj rest,
                     freshEntries E (Now E w).1 (Heap c')
                       (RangeOrder E (MetricMap c'))
                       = built ++ (k, p) :: rest /\
                     Heap c' !! p = Some obj /\
                     NewQueryErr E obj (MetricRepo c) = Some e
               end
         end
     end).
Proof.
  split; [|split; [|split]].
  - intros pc ex ins meta c e c1 Hex Hc. unfold loadMeta.
    rewrite Hex. unfold bind at 1. rewrite Hc.
    split; [done|]. unfold createMetricWithMeta in Hc. run.
    repeat case_match; by simplify_eq.
  - intros pc ex ins meta c nm c1 obj Hex Hc Hobj. unfold loadMeta.
    rewrite Hex. unfold bind at 1. rewrite Hc. clear Hc. run.
    rewrite Hobj. simpl.
    destruct (GetSeriesByInstances E obj [ins] (Outside c1)).1.2; simpl;
      destruct (LoadSeries E obj _ _).1.2; simpl;
      (eexists; split; [reflexivity|]); simpl;
      (split; [by rewrite lookup_insert_eq|]);
      by rewrite <- ?app_assoc.
  - intros instances c r c' H. unfold loadMetrics in H. run.
    destruct (GetProductConfig E (Namespace c) (Outside c)); [|by simplify_eq].
    destruct (forEach _ _ _) as [[[] c1]|]; by simplify_eq.
  - intros c r c' H. exact (cycle_outcome _ _ _ H).
Qed.

(** C8 (amended).  When listing the metric metadata of an instance fails
    and returns no metadata, the failure is logged and the instance
    contributes nothing: registry, objects and queries stay as they were.  The
    instances before it have been processed, the instances after it are
    processed from there, and [loadMetrics] completes without an error. *)
Theorem loadMetrics_tolerates_failed_listing c pc before ins rest c1 e w' :
  wf c ->
  GetProductConfig E (Namespace c) (Outside c) = inl pc ->
  forEach (loadInstance E pc (lowerExcludes E pc)) before c = Some (tt, c1) ->
  ListMetrics E (Namespace c1) (GetInstanceID E ins) (Outside c1) = (([], Some e), w') ->
  exists c2 c',
    loadInstance E pc (lowerExcludes E pc) ins c1 = Some (tt, c2) /\
    c2 = set_Logged
           (fun ls => ls ++ [{| lvl := Warn; msg := "request metric list fail" |}])
           (set_Outside w' c1) /\
    MetricMap c2 = MetricMap c1 /\ Heap c2 = Heap c1 /\ Queries c2 = Queries c1 /\
    forEach (loadInstance E pc (lowerExcludes E pc)) rest c2 = Some (tt, c') /\
    loadMetrics E (before ++ ins :: rest) c = Some (None, c').
Proof.
  intros Hwf Hpc Hbefore Hlist.
  assert (Hwf1 : wf c1).
  { destruct (hoare_forEach wf _ before (loadInstance_wf pc (lowerExcludes E pc)) c Hwf)
      as ([] & c1' & Hrun & Hwf1). by simplify_eq. }
  assert (Hins : loadInstance E pc (lowerExcludes E pc) ins c1
                 = Some (tt, set_Logged
                      (fun ls => ls ++ [{| lvl := Warn; msg := "request metric list fail" |}])
                      (set_Outside w' c1))).
  { unfold loadInstance. run. by rewrite Hlist. }
  eexists. 
  destruct (hoare_forEach wf _ rest (loadInstance_wf pc (lowerExcludes E pc))
              (set_Logged
                 (fun ls => ls ++ [{| lvl := Warn; msg := "request metric list fail" |}])
                 (set_Outside w' c1)) Hwf1)
    as ([] & c' & Hrest & _).
  exists c'. split; [exact Hins|]. do 4 (split; [reflexivity|]).
  split; [exact Hrest|].
  unfold loadMetrics. unfold bind at 1. simpl. rewrite Hpc.
  unfold bind at 1. rewrite forEach_app. unfold bind at 1. rewrite Hbefore.
  simpl. unfold bind at 1. rewrite Hins. by rewrite Hrest.
Qed.

(** C10 (amended).  The error returned by the metadata listing only adds
    a warning to the log: with or without it, the instance is processed by
    running the per-entry step on every returned entry, in order.  The step
    drops an excluded entry without touching anything, and otherwise leaves
    the entry's key in the registry unless the construction failed.  So an
    instance contributes nothing when every returned entry is excluded, the
    empty sequence being one such case. *)
Theorem loadInstance_processes_every_entry pc ex ins c metas err w' :
  ListMetrics E (Namespace c) (GetInstanceID E ins) (Outside c) = ((metas, err), w') ->
  exists c1,
    logIfErr err Warn "request metric list fail" (set_Outside w' c) = Some (tt, c1) /\
    loadInstance E pc ex ins c = forEach (loadMeta E pc ex ins) metas c1 /\
    (Forall (fun meta => isExcluded E ex meta = true) metas ->
     loadInstance E pc ex ins c = Some (tt, c1)) /\
    (forall meta c0 c0',
       isExcluded E ex meta = false ->
       loadMeta E pc ex ins meta c0 = Some (tt, c0') ->
       is_Some (MetricMap c0' !! metricKey (MetricName E meta) (GetInstanceID E ins)) \/
       exists e c2,
         createMetricWithMeta E meta pc (GetInstanceID E ins) c0 = Some (inr e, c2)).
Proof.
  intros Hlist.
  destruct (logIfErr_run err Warn "request metric list fail" (set_Outside w' c))
    as (c1 & Hlog & _).
  exists c1. split; [exact Hlog|].
  assert (Hrun : loadInstance E pc ex ins c = forEach (loadMeta E pc ex ins) metas c1).
  { unfold loadInstance. unfold bind at 1. simpl. unfold bind at 1.
    unfold call. simpl. rewrite Hlist. simpl. unfold bind at 1. rewrite Hlog.
    destruct metas; reflexivity. }
  split; [exact Hrun|]. split.
  - rewrite Hrun. clear. revert c1.
    induction metas as [|meta metas IH]; intros c1 Hall; [reflexivity|].
    apply Forall_cons in Hall as [Hex Hall]. simpl. unfold bind.
    unfold loadMeta at 1. rewrite Hex. simpl. by apply IH.
  - intros meta c0 c0' Hex H. unfold loadMeta in H. rewrite Hex in H.
    apply bind_Some in H as ([nm|e] & c2 & Hc & H); [left | right; eauto].
    run. destruct (Heap c2 !! nm); [|discriminate]. simpl in H.
    repeat case_match; simplify_eq; simpl; rewrite lookup_insert_eq; eauto.
Qed.

(** *** The cycle does not panic on a well-formed collector *)

Lemma rangeQueries_total now entries c :
  (forall k p, (k, p) ∈ entries -> p < length (Heap c)) ->
  exists r c',
    rangeQueries E now entries c = Some (r, c') /\
    MetricMap c' = MetricMap c /\ Heap c' = Heap c.
Proof.
  revert c. induction entries as [|[k p] rest IH]; intros c Hin; simpl.
  - by exists None, c.
  - destruct (lookup_lt_is_Some_2 (Heap c) p) as [obj Hobj].
    { eapply Hin. left. }
    unfold bind at 1. unfold deref. rewrite Hobj.
    assert (Hrest : forall c0, Heap c0 = Heap c ->
              forall k' p', (k', p') ∈ rest -> p' < length (Heap c0)).
    { intros c0 -> k' p' Hkp. eapply Hin. right. exact Hkp. }
    destruct (wrap64 _ <? 60)%Z.
    + unfold NewQuery. run. destruct (NewQueryErr E obj (MetricRepo c)).
      * by eexists _, _.
      * destruct (IH (set_Queries
                        (fun qs => qs ++ [{| QMetric := p; QRepo := MetricRepo c |}]) c)
                     (Hrest _ eq_refl))
          as (r & c' & -> & Hm & Hh).
        by exists r, c'.
    + destruct (IH c (Hrest _ eq_refl)) as (r & c' & -> & Hm & Hh).
      by exists r, c'.
Qed.

Lemma snapshotInstances_wf :
  hoare wf (snapshotInstances E) (fun _ => wf).
Proof.
  intros c Hwf. unfold snapshotInstances. run.
  eexists _, _. split; [reflexivity|].
  destruct (size (MetricMap c) =? 0); [|exact Hwf].
  intros k p Hk. simpl in Hk. by rewrite lookup_empty in Hk.
Qed.

Lemma boundInstances_wf instances :
  hoare wf (boundInstances E instances) (fun _ => wf).
Proof.
  intros c Hwf. unfold boundInstances. run.
  repeat case_match; eexists _, _; (split; [reflexivity | exact Hwf]).
Qed.

Lemma loadFromInstances_wf instances :
  (forall m, RangeOrder E m ≡ₚ map_to_list m) ->
  hoare wf (loadFromInstances E instances) (fun _ => wf).
Proof.
  intros Hperm c Hwf. unfold loadFromInstances.
  destruct (loadMetrics_wf instances c Hwf) as (r & c3 & Hl & Hwf3 & _).
  unfold bind at 1. rewrite Hl. destruct r as [e|]; [by eexists _, _|].
  run.
  destruct (rangeQueries_total (Now E (Outside c3)).1
              (RangeOrder E (MetricMap c3))
              (set_Outside (Now E (Outside c3)).2 c3))
    as (r & c4 & -> & Hm & Hh).
  { intros k p Hkp. rewrite Hperm in Hkp.
    apply elem_of_map_to_list in Hkp. by eapply Hwf3. }
  assert (wf c4).
  { intros k p Hk. rewrite Hm in Hk. rewrite Hh. by eapply Hwf3. }
  destruct r; by eexists _, _.
Qed.

Lemma LoadMetricsByProductConf_wf :
  (forall m, RangeOrder E m ≡ₚ map_to_list m) ->
  hoare wf (LoadMetricsByProductConf E) (fun _ => wf).
Proof.
  intros Hperm. unfold LoadMetricsByProductConf.
  eapply hoare_bind; [apply snapshotInstances_wf|]. intros ir.
  destruct ir.2 as [e|]; [by apply hoare_ret|].
  eapply hoare_bind; [apply boundInstances_wf|]. intros instances.
  by apply loadFromInstances_wf.
Qed.

(** *** Counting reloads *)

#[local] Abbreviation SR := (@sameReloads Metric Repo World).

Lemma sameReloads_refl c : SR c c.
Proof. reflexivity. Qed.

Lemma sameReloads_trans c1 c2 c3 : SR c1 c2 -> SR c2 c3 -> SR c1 c3.
Proof. unfold sameReloads. congruence. Qed.

Lemma reloads_logged l m c :
  reloads (set_Logged (fun ls => ls ++ [{| lvl := l; msg := m |}]) c) =
  reloads c + (if decide ({| lvl := l; msg := m |} = reloadDone) then 1 else 0).
Proof.
  unfold reloads. simpl. rewrite filter_app, length_app. f_equal.
  rewrite filter_cons, filter_nil. by case_decide.
Qed.

Lemma sameReloads_log l m :
  {| lvl := l; msg := m |} <> reloadDone -> preserves SR (log l m).
Proof.
  intros Hne c a c' H. run. simplify_eq. unfold sameReloads.
  rewrite reloads_logged, decide_False by done. lia.
Qed.

Lemma sameReloads_logIfErr e l m :
  {| lvl := l; msg := m |} <> reloadDone -> preserves SR (logIfErr e l m).
Proof.
  intros Hne. destruct e; [by apply sameReloads_log|].
  intros c a c' H. run. by simplify_eq.
Qed.

Lemma sameReloads_modify f :
  (forall c, Logged (f c) = Logged c) -> preserves SR (modify f).
Proof.
  intros Hf c a c' H. run. simplify_eq. unfold sameReloads, reloads. by rewrite Hf.
Qed.

Lemma sameReloads_call {A} (f : World -> A * World) : preserves SR (call f).
Proof. intros c a c' H. run. by simplify_eq. Qed.

Lemma sameReloads_alloc (m : Metric) : preserves SR (alloc m).
Proof. intros c a c' H. run. by simplify_eq. Qed.

Lemma sameReloads_deref p : preserves SR (@deref Metric Repo World p).
Proof.
  intros c a c' H. unfold deref in H. destruct (Heap c !! p); by simplify_eq.
Qed.

Lemma sameReloads_store p (m : Metric) : preserves SR (store p m).
Proof. by apply sameReloads_modify. Qed.

Create HintDb reloads discriminated.

Ltac counted :=
  repeat first
    [ solve [auto 1 with reloads nocore]
    | apply (preserves_ret _ sameReloads_refl)
    | apply (preserves_get _ sameReloads_refl)
    | apply sameReloads_call
    | apply sameReloads_logIfErr; discriminate
    | apply sameReloads_log; discriminate
    | apply sameReloads_alloc
    | apply sameReloads_deref
    | apply sameReloads_store
    | apply sameReloads_modify; intros ?; reflexivity
    | apply (preserves_bind _ sameReloads_trans); [|intros ?]
    | apply (preserves_forEach _ sameReloads_refl sameReloads_trans); intros ?
    | match goal with
      | |- preserves _ (match ?x with _ => _ end) => destruct x
      end ].

Lemma createMetricWithMeta_sameReloads meta pc id :
  preserves SR (createMetricWithMeta E meta pc id).
Proof. unfold createMetricWithMeta. counted. Qed.
#[local] Hint Resolve createMetricWithMeta_sameReloads : reloads.

Lemma loadMeta_sameReloads pc ex ins meta :
  preserves SR (loadMeta E pc ex ins meta).
Proof. unfold loadMeta. counted. Qed.
#[local] Hint Resolve loadMeta_sameReloads : reloads.

Lemma loadInstance_sameReloads pc ex ins :
  preserves SR (loadInstance E pc ex ins).
Proof. unfold loadInstance. counted. Qed.
#[local] Hint Resolve loadInstance_sameReloads : reloads.

Lemma loadMetrics_sameReloads instances :
  preserves SR (loadMetrics E instances).
Proof. unfold loadMetrics. counted. Qed.
#[local] Hint Resolve loadMetrics_sameReloads : reloads.

Lemma rangeQueries_sameReloads now entries :
  preserves SR (rangeQueries E now entries).
Proof.
  induction entries as [|[k p] rest IH]; simpl; counted.
Qed.
#[local] Hint Resolve rangeQueries_sameReloads : reloads.

Lemma LoadMetricsByProductConf_sameReloads :
  preserves SR (LoadMetricsByProductConf E).
Proof.
  unfold LoadMetricsByProductConf, snapshotInstances, boundInstances,
    loadFromInstances.
  counted.
  apply sameReloads_modify. intros c. by destruct (size _ =? 0).
Qed.

Lemma reloadOnce_reloads c c' :
  reloadOnce E c = Some (tt, c') -> reloads c' = S (reloads c).
Proof.
  unfold reloadOnce, reloadMetricsByProductConf. intros H.
  apply bind_Some in H as ([] & c1 & H1 & H).
  apply sameReloads_log in H1; [|discriminate].
  apply bind_Some in H as (e & c2 & H2 & H).
  apply LoadMetricsByProductConf_sameReloads in H2.
  apply bind_Some in H as ([] & c3 & H3 & H).
  apply sameReloads_logIfErr in H3; [|discriminate].
  unfold log, modify in H. simplify_eq.
  rewrite reloads_logged, decide_True by done.
  unfold sameReloads in *. lia.
Qed.

Lemma log_wf l m : hoare wf (@log Metric Repo World l m) (fun _ => wf).
Proof. apply hoare_modify. intros c H. exact H. Qed.

Lemma reloadOnce_wf :
  (forall m, RangeOrder E m ≡ₚ map_to_list m) ->
  hoare wf (reloadOnce E) (fun _ => wf).
Proof.
  intros Hperm. unfold reloadOnce, reloadMetricsByProductConf.
  eapply hoare_bind; [apply log_wf|]. intros [].
  eapply hoare_bind; [by apply LoadMetricsByProductConf_wf|]. intros e.
  apply (hoare_bind _ _ (fun _ => wf)); [|intros []; apply log_wf].
  destruct e; [apply log_wf | by apply hoare_ret].
Qed.

Lemma selectLoop_reloads sched c :
  (forall m, RangeOrder E m ≡ₚ map_to_list m) ->
  wf c ->
  exists st c',
    selectLoop E true sched c = Some (st, c') /\
    reloads c <= reloads c' /\
    (st = Returned ->
     exists n ev,
       sched !! n = Some ev /\ prefersDone ev = true /\
       reloads c' = reloads c + n) /\
    (forall ev rest,
       sched = ev :: rest -> prefersDone ev = true -> st = Returned /\ c' = c).
Proof.
  intros Hperm. revert c. induction sched as [|ev rest IH]; intros c Hwf; simpl.
  - exists Selecting, c. by repeat split.
  - destruct (prefersDone ev) eqn:Hev.
    + exists Returned, c. split; [done|]. split; [done|]. split; [|done].
      intros _. exists 0, ev. by rewrite Nat.add_0_r.
    + destruct (reloadOnce_wf Hperm c Hwf) as ([] & c1 & H1 & Hwf1).
      unfold bind at 1. rewrite H1. apply reloadOnce_reloads in H1.
      destruct (IH c1 Hwf1) as (st & c' & -> & Hle & Hret & _).
      exists st, c'. split; [done|]. split; [lia|]. split.
      * intros Hst. destruct (Hret Hst) as (n & ev' & Hn & Hp & Hr).
        exists (S n), ev'. split; [done|]. split; [done|]. lia.
      * intros ev' rest' [= <- <-] Hp. congruence.
Qed.

(** C7 (amended).  With a reload interval that is not positive [Run]
    panics in [time.NewTicker], before it sleeps or reloads.  With a positive
    interval, a [Stop] that arrives before the first tick does not keep [Run]
    from reloading: [Run] sleeps the full interval and then goes through one
    reload before it looks at the cancellation for the first time, in the
    [select] that follows the reload.  So at least one reload is executed,
    never zero; exactly one when the first [select] takes the cancellation,
    and one more for every [select] that takes the tick instead. *)
Theorem Run_reloads_before_it_selects reloadInterval sched c :
  (forall m, RangeOrder E m ≡ₚ map_to_list m) ->
  wf c ->
  ((reloadInterval <= 0)%Z ->
   Run E reloadInterval (Stop false) sched c = None) /\
  ((0 < reloadInterval)%Z ->
   exists st c1 c',
     reloadOnce E (set_Outside (Sleep E reloadInterval (Outside c)) c)
       = Some (tt, c1) /\
     selectLoop E (Stop false) sched c1 = Some (st, c') /\
     Run E reloadInterval (Stop false) sched c = Some (st, c') /\
     reloads c1 = S (reloads c) /\
     reloads c < reloads c' /\
     (st = Returned ->
      exists n ev,
        sched !! n = Some ev /\ prefersDone ev = true /\
        reloads c' = S (reloads c + n)) /\
     (forall ev rest,
        sched = ev :: rest -> prefersDone ev = true ->
        st = Returned /\ reloads c' = S (reloads c))).
Proof.
  intros Hperm Hwf. unfold Run, Stop, NewTicker. split.
  - intros Hle. apply Z.ltb_ge in Hle. unfold bind at 1. by rewrite Hle.
  - intros Hlt. apply Z.ltb_lt in Hlt. unfold bind at 1. rewrite Hlt.
    unfold bind at 1. unfold call at 1. simpl.
    destruct (reloadOnce_wf Hperm
                (set_Outside (Sleep E reloadInterval (Outside c)) c) Hwf)
      as ([] & c1 & H1 & Hwf1).
    unfold bind. rewrite H1. apply reloadOnce_reloads in H1 as Hr1.
    destruct (selectLoop_reloads sched c1 Hperm Hwf1)
      as (st & c' & Hsel & Hle & Hret & Hfirst).
    change (reloads (set_Outside (Sleep E reloadInterval (Outside c)) c))
      with (reloads c) in Hr1.
    exists st, c1, c'. split; [done|]. split; [done|]. split; [done|].
    split; [lia|]. split; [lia|]. split.
    + intros Hst. destruct (Hret Hst) as (n & ev & Hn & Hp & Hr).
      exists n, ev. split; [done|]. split; [done|]. lia.
    + intros ev rest Hs Hp. destruct (Hfirst ev rest Hs Hp) as [-> ->].
      split; [done | lia].
Qed.

(** *** What one entry does to the registry and to the objects *)

Lemma createMetricWithMeta_cases meta pc id c r c1 :
  createMetricWithMeta E meta pc id c = Some (r, c1) ->
  MetricMap c1 = MetricMap c /\
  ((exists p, r = inl p /\
      MetricMap c !! metricKey (MetricName E meta) id = Some p /\
      Heap c1 = Heap c) \/
   (exists nm, r = inl (length (Heap c)) /\
      MetricMap c !! metricKey (MetricName E meta) id = None /\
      Heap c1 = Heap c ++ [nm]) \/
   (exists e, r = inr e /\ Heap c1 = Heap c)).
Proof.
  intros H. unfold createMetricWithMeta in H. run.
  destruct (MetricMap c !! metricKey (MetricName E meta) id) as [p|] eqn:Hk.
  { simplify_eq. split; [done|]. left. by exists p. }
  destruct (NewMetricConfigWithProductYaml E pc meta) as [conf|e].
  2: { simplify_eq. split; [done|]. right. right. by exists e. }
  destruct (NewMetric E meta conf (Outside c)) as [[nm|e] w'];
    simpl in H; simplify_eq; (split; [done|]); right.
  - left. by exists nm.
  - right. by exists e.
Qed.

Lemma loadMeta_cases pc ex ins meta c c' :
  loadMeta E pc ex ins meta c = Some (tt, c') ->
  (isExcluded E ex meta = true /\ c' = c) \/
  (isExcluded E ex meta = false /\
   MetricMap c' = MetricMap c /\ Heap c' = Heap c) \/
  (isExcluded E ex meta = false /\
   exists p heap1 obj,
     (MetricMap c !! metricKey (MetricName E meta) (GetInstanceID E ins) = Some p
        /\ heap1 = Heap c \/
      MetricMap c !! metricKey (MetricName E meta) (GetInstanceID E ins) = None
        /\ p = length (Heap c) /\ exists nm, heap1 = Heap c ++ [nm]) /\
     p < length heap1 /\
     MetricMap c' =
       <[metricKey (MetricName E meta) (GetInstanceID E ins) := p]> (MetricMap c) /\
     Heap c' = <[p := obj]> heap1).
Proof.
  intros H. unfold loadMeta in H.
  destruct (isExcluded E ex meta) eqn:Hex.
  { left. run. by simplify_eq. }
  right. apply bind_Some in H as (r & c1 & Hc & H).
  apply createMetricWithMeta_cases in Hc as (Hm & Hcase).
  destruct Hcase as [(p & -> & Hk & Hh) | [(nm & -> & Hk & Hh) | (e & -> & Hh)]].
  - right. split; [done|]. run.
    destruct (Heap c1 !! p) as [obj|] eqn:Hp; [|discriminate]. simpl in H.
    pose proof (lookup_lt_Some _ _ _ Hp) as Hlt.
    exists p, (Heap c1). eexists. split; [left; by rewrite Hh|]. split; [done|].
    repeat case_match; simplify_eq; simpl; rewrite Hm; by split.
  - right. split; [done|]. run.
    destruct (Heap c1 !! length (Heap c)) as [obj|] eqn:Hp; [|discriminate].
    simpl in H. pose proof (lookup_lt_Some _ _ _ Hp) as Hlt.
    exists (length (Heap c)), (Heap c1). eexists.
    split; [right; split; [done|]; split; [done|]; by exists nm|]. split; [done|].
    repeat case_match; simplify_eq; simpl; rewrite Hm; by split.
  - left. split; [done|]. run. simplify_eq. simpl. by split.
Qed.

(** *** Lifting a property of the store through the cycle *)

#[local] Abbreviation SS := (@sameStore Metric Repo World).

Lemma sameStore_refl c : SS c c.
Proof. by split. Qed.

Lemma sameStore_trans c1 c2 c3 : SS c1 c2 -> SS c2 c3 -> SS c1 c3.
Proof. intros [? ?] [? ?]. split; congruence. Qed.

Lemma sameStore_modify f :
  (forall c, MetricMap (f c) = MetricMap c /\ Heap (f c) = Heap c) ->
  preserves SS (modify f).
Proof. intros Hf c a c' H. run. simplify_eq. apply Hf. Qed.

Lemma sameStore_call {A} (f : World -> A * World) : preserves SS (call f).
Proof. intros c a c' H. run. by simplify_eq. Qed.

Lemma sameStore_logIfErr e l m : preserves SS (logIfErr e l m).
Proof. destruct e; intros c a c' H; run; by simplify_eq. Qed.

Lemma sameStore_deref p : preserves SS (@deref Metric Repo World p).
Proof.
  intros c a c' H. unfold deref in H. destruct (Heap c !! p); by simplify_eq.
Qed.

Lemma sameStore_reset :
  preserves SS
    (modify (fun c : Coll' => if size (MetricMap c) =? 0
                              then set_MetricMap (fun _ => ∅) c else c)).
Proof.
  intros c a c' H. run. simplify_eq.
  destruct (size (MetricMap c) =? 0) eqn:Hs; [|done].
  apply Nat.eqb_eq, map_size_empty_inv in Hs. split; [by rewrite Hs | done].
Qed.

Create HintDb store discriminated.

Ltac stored :=
  repeat first
    [ solve [auto 1 with store nocore]
    | apply (preserves_ret _ sameStore_refl)
    | apply (preserves_get _ sameStore_refl)
    | apply sameStore_call
    | apply sameStore_logIfErr
    | apply sameStore_deref
    | apply sameStore_reset
    | apply sameStore_modify; intros ?; split; reflexivity
    | apply (preserves_bind _ sameStore_trans); [|intros ?]
    | match goal with
      | |- preserves _ (match ?x with _ => _ end) => destruct x
      end ].

Lemma rangeQueries_sameStore now entries :
  preserves SS (rangeQueries E now entries).
Proof. induction entries as [|[k p] rest IH]; simpl; stored. Qed.

Lemma initLoop_sameStore entries : preserves SS (initLoop E entries).
Proof. induction entries as [|[k p] rest IH]; simpl; stored. Qed.

Lemma boundInstances_sameStore instances :
  preserves SS (boundInstances E instances).
Proof. unfold boundInstances. stored. Qed.

Lemma snapshotInstances_sameStore : preserves SS (snapshotInstances E).
Proof. unfold snapshotInstances. stored. Qed.

Section Lifting.

Variable R : Coll' -> Coll' -> Prop.
Variable P : Instance -> Prop.
Hypothesis R_trans : forall c1 c2 c3, R c1 c2 -> R c2 c3 -> R c1 c3.
Hypothesis R_store : forall c c', SS c c' -> R c c'.

Lemma lift_refl c : R c c.
Proof. apply R_store, sameStore_refl. Qed.

Lemma lift_store {A} (m : M A) : preserves SS m -> preserves R m.
Proof. intros Hm c a c' H. eapply R_store, Hm, H. Qed.

Lemma lift_loadInstance pc ex ins :
  (forall meta, preserves R (loadMeta E pc ex ins meta)) ->
  preserves R (loadInstance E pc ex ins).
Proof.
  intros HP. unfold loadInstance.
  apply (preserves_bind _ R_trans); [apply (preserves_get _ lift_refl)|]. intros c0.
  apply (preserves_bind _ R_trans); [apply lift_store, sameStore_call|]. intros lr.
  apply (preserves_bind _ R_trans); [apply lift_store, sameStore_logIfErr|]. intros _.
  destruct (0 <? length lr.1); [|apply (preserves_ret _ lift_refl)].
  apply (preserves_forEach _ lift_refl R_trans). intros meta. by apply HP.
Qed.

Lemma lift_instances pc ex instances :
  Forall (fun ins => forall meta, preserves R (loadMeta E pc ex ins meta)) instances ->
  preserves R (forEach (loadInstance E pc ex) instances).
Proof.
  induction 1 as [|ins rest HP _ IH]; simpl.
  - apply (preserves_ret _ lift_refl).
  - apply (preserves_bind _ R_trans); [by apply lift_loadInstance | intros _; apply IH].
Qed.

Hypothesis R_loadMeta : forall pc ex ins meta,
  P ins -> preserves R (loadMeta E pc ex ins meta).

Lemma lift_loadMetrics instances :
  Forall P instances -> preserves R (loadMetrics E instances).
Proof.
  intros HP. unfold loadMetrics.
  apply (preserves_bind _ R_trans); [apply (preserves_get _ lift_refl)|]. intros c0.
  destruct (GetProductConfig E _ _) as [pc|]; [|apply (preserves_ret _ lift_refl)].
  apply (preserves_bind _ R_trans); [|intros _; apply (preserves_ret _ lift_refl)].
  apply lift_instances. eapply Forall_impl; [exact HP|].
  intros ins Hins meta. by apply R_loadMeta.
Qed.

Lemma lift_loadFromInstances instances :
  Forall P instances -> preserves R (loadFromInstances E instances).
Proof.
  intros HP. unfold loadFromInstances.
  apply (preserves_bind _ R_trans); [by apply lift_loadMetrics|]. intros [e|].
  { apply (preserves_ret _ lift_refl). }
  apply (preserves_bind _ R_trans); [apply lift_store, sameStore_call|]. intros now.
  apply (preserves_bind _ R_trans); [apply (preserves_get _ lift_refl)|]. intros c0.
  apply (preserves_bind _ R_trans); [apply lift_store, rangeQueries_sameStore|].
  intros [e|]; [apply (preserves_ret _ lift_refl)|].
  apply lift_store. stored.
Qed.

Lemma lift_cycle :
  (forall ins, P ins) -> preserves R (LoadMetricsByProductConf E).
Proof.
  intros HP. unfold LoadMetricsByProductConf.
  apply (preserves_bind _ R_trans); [apply lift_store, snapshotInstances_sameStore|].
  intros ir. destruct ir.2; [apply (preserves_ret _ lift_refl)|].
  apply (preserves_bind _ R_trans); [apply lift_store, boundInstances_sameStore|].
  intros instances. apply lift_loadFromInstances. by apply Forall_forall.
Qed.

End Lifting.

(** *** The registry across a cycle *)

#[local] Abbreviation KR := (@keepsRegistry Metric Repo World).

Lemma keepsRegistry_trans c1 c2 c3 : KR c1 c2 -> KR c2 c3 -> KR c1 c3.
Proof. intros [H1 L1] [H2 L2]. split; [auto | lia]. Qed.

Lemma keepsRegistry_store c c' : SS c c' -> KR c c'.
Proof. intros [Hm Hh]. split; [by rewrite Hm | by rewrite Hh]. Qed.

Lemma loadMeta_keepsRegistry pc ex ins meta :
  preserves KR (loadMeta E pc ex ins meta).
Proof.
  intros c [] c' H. apply loadMeta_cases in H
    as [[_ ->] | [(_ & Hm & Hh) | (_ & p & heap1 & obj & Hcase & Hlt & Hm & Hh)]].
  - by apply keepsRegistry_store.
  - by apply keepsRegistry_store.
  - split.
    + intros k q Hk. rewrite Hm.
      destruct Hcase as [[Hkey _] | (Hkey & _)].
      * by rewrite insert_id.
      * rewrite lookup_insert_ne; [done | congruence].
    + rewrite Hh, length_insert.
      destruct Hcase as [[_ ->] | (_ & _ & nm & ->)]; [done|].
      rewrite length_app. lia.
Qed.

(** X1.  A reload cycle never takes an entry out of the registry and never
    points a key to another object: every key keeps the pointer it had.  No
    object is dropped either: the heap does not shrink. *)
Theorem LoadMetricsByProductConf_keeps_registry c r c' :
  LoadMetricsByProductConf E c = Some (r, c') ->
  (forall k p, MetricMap c !! k = Some p -> MetricMap c' !! k = Some p) /\
  length (Heap c) <= length (Heap c').
Proof.
  intros H.
  by apply (lift_cycle KR (fun _ => True) keepsRegistry_trans keepsRegistry_store
              (fun pc ex ins meta _ => loadMeta_keepsRegistry pc ex ins meta)
              (fun _ => I) _ _ _ H).
Qed.

(** *** Objects of other instances *)

Lemma sparesOthers_trans P c1 c2 c3 :
  sparesOthers E P c1 c2 -> sparesOthers E P c2 c3 -> sparesOthers E P c1 c3.
Proof.
  intros (L1 & M1 & H1) (L2 & M2 & H2). split; [lia|]. split.
  - intros k q Hk Hq. apply M1; [|done]. apply M2; [done | lia].
  - intros p Hp Hkeys. rewrite H2; [by apply H1 | lia |].
    intros k Hk. apply Hkeys. by apply M1.
Qed.

Lemma sparesOthers_store P c c' : SS c c' -> sparesOthers E P c c'.
Proof.
  intros [Hm Hh]. split; [by rewrite Hh|]. split.
  - intros k q Hk _. by rewrite <- Hm.
  - intros p _ _. by rewrite Hh.
Qed.

Lemma loadMeta_sparesOthers (P : Instance -> Prop) pc ex ins meta :
  P ins -> preserves (sparesOthers E P) (loadMeta E pc ex ins meta).
Proof.
  intros HP c [] c' H. apply loadMeta_cases in H
    as [[_ ->] | [(_ & Hm & Hh) | (_ & p & heap1 & obj & Hcase & Hlt & Hm & Hh)]].
  - by apply sparesOthers_store.
  - by apply sparesOthers_store.
  - assert (Hkey : keyOf E P (metricKey (MetricName E meta) (GetInstanceID E ins)))
      by (by exists ins, meta).
    split; [|split].
    + rewrite Hh, length_insert.
      destruct Hcase as [[_ ->] | (_ & _ & nm & ->)]; [done|].
      rewrite length_app. lia.
    + intros k q. rewrite Hm, lookup_insert. case_decide as Hk.
      * intros [= <-] Hq. destruct Hcase as [[Hc _] | (_ & -> & _)]; [|lia].
        by rewrite <- Hk.
      * done.
    + intros p0 Hp0 Hkeys. rewrite Hh.
      assert (p <> p0).
      { intros ->. destruct Hcase as [[Hc _] | (_ & -> & _)]; [|lia].
        by apply (Hkeys _ Hc). }
      rewrite list_lookup_insert_ne by done.
      destruct Hcase as [[_ ->] | (_ & _ & nm & ->)]; [done|].
      by rewrite lookup_app_l.
Qed.

(** X2.  Loading the metrics of a list of instances only writes to the
    objects those instances' keys lead to: an object that no key of one of
    these instances points to is, after [loadMetrics], exactly as it was
    (series cache and load time included). *)
Theorem loadMetrics_spares_other_objects instances c r c' p obj :
  loadMetrics E instances c = Some (r, c') ->
  Heap c !! p = Some obj ->
  (forall k, MetricMap c !! k = Some p -> ~ keyOf E (fun ins => ins ∈ instances) k) ->
  Heap c' !! p = Some obj.
Proof.
  intros H Hp Hkeys.
  destruct (lift_loadMetrics (sparesOthers E (fun ins => ins ∈ instances))
              (fun ins => ins ∈ instances)
              (sparesOthers_trans _) (sparesOthers_store _)
              (fun pc ex ins meta HP => loadMeta_sparesOthers _ pc ex ins meta HP)
              instances (proj2 (Forall_forall _ _) (fun _ Hin => Hin)) _ _ _ H)
    as (_ & _ & Hobj).
  rewrite Hobj; [done | by eapply lookup_lt_Some | done].
Qed.

(** *** Where new keys come from *)

Lemma addsOnly_trans P ex c1 c2 c3 :
  addsOnly E P ex c1 c2 -> addsOnly E P ex c2 c3 -> addsOnly E P ex c1 c3.
Proof.
  intros H1 H2 k p Hk. destruct (H2 k p Hk) as [Hk2|Hnew]; [by apply H1 | by right].
Qed.

Lemma addsOnly_store P ex c c' : SS c c' -> addsOnly E P ex c c'.
Proof. intros [Hm _] k p Hk. left. by rewrite <- Hm. Qed.

Lemma loadMeta_addsOnly (P : Instance -> Prop) pc ex ins meta :
  P ins -> preserves (addsOnly E P ex) (loadMeta E pc ex ins meta).
Proof.
  intros HP c [] c' H. apply loadMeta_cases in H
    as [[_ ->] | [(_ & Hm & Hh) | (Hex & p & heap1 & obj & Hcase & Hlt & Hm & Hh)]].
  - by apply addsOnly_store.
  - by apply addsOnly_store.
  - intros k q. rewrite Hm, lookup_insert. case_decide as Hk.
    + intros _. right. by exists ins, meta.
    + by left.
Qed.

(** X3.  Every entry [loadMetrics] adds to the registry is the key of an
    instance of the list it was given and of a metric that the lowercased
    exclusion list of the product configuration does not exclude: an
    excluded metric never gets an entry, nor does an instance that is not in
    the list. *)
Theorem loadMetrics_adds_only_listed_keys instances c pc r c' :
  GetProductConfig E (Namespace c) (Outside c) = inl pc ->
  loadMetrics E instances c = Some (r, c') ->
  forall k p,
    MetricMap c' !! k = Some p ->
    MetricMap c !! k = Some p \/
    exists ins meta,
      ins ∈ instances /\
      isExcluded E (lowerExcludes E pc) meta = false /\
      k = metricKey (MetricName E meta) (GetInstanceID E ins).
Proof.
  intros Hpc H. unfold loadMetrics in H. unfold bind at 1 in H. simpl in H.
  rewrite Hpc in H. apply bind_Some in H as ([] & c1 & H & Hret).
  unfold ret in Hret. simplify_eq.
  apply (lift_instances (addsOnly E (fun ins => ins ∈ instances) (lowerExcludes E pc))
           (addsOnly_trans _ _) (addsOnly_store _ _)
           pc (lowerExcludes E pc) instances) in H; [exact H|].
  apply Forall_forall. intros ins Hin meta. by apply loadMeta_addsOnly.
Qed.

(** *** Keys *)

Lemma string_length_app (s t : string) :
  String.length (s +:+ t) = String.length s + String.length t.
Proof. induction s as [|a s IH]; simpl; [done | by rewrite IH]. Qed.

Lemma string_app_assoc (s t u : string) : (s +:+ t) +:+ u = s +:+ t +:+ u.
Proof.
  induction s as [|a s IH]; [done|].
  change (String a ((s +:+ t) +:+ u) = String a (s +:+ t +:+ u)). by f_equal.
Qed.

Lemma string_app_inj_r (t : string) : forall s1 s2,
  s1 +:+ t = s2 +:+ t -> s1 = s2.
Proof.
  induction s1 as [|a s1 IH]; intros [|b s2] H.
  - done.
  - apply (f_equal String.length) in H.
    rewrite !string_length_app in H. simpl in H. lia.
  - apply (f_equal String.length) in H.
    rewrite !string_length_app in H. simpl in H. lia.
  - simpl in H. injection H as -> H. f_equal. by apply IH.
Qed.

(** X4.  The registry key tells two instances of one metric apart, and two
    metrics of one instance: with the same metric name, equal keys mean equal
    instance ids, and with the same instance id, equal keys mean equal metric
    names.  It does not tell every pair apart: moving a dot-separated part
    from the end of the name to the front of the id gives the same key. *)
Theorem metricKey_separates :
  (forall name id1 id2, metricKey name id1 = metricKey name id2 -> id1 = id2) /\
  (forall name1 name2 id, metricKey name1 id = metricKey name2 id -> name1 = name2) /\
  (forall a b id, metricKey (a +:+ "." +:+ b) id = metricKey a (b +:+ "." +:+ id)).
Proof.
  unfold metricKey. split; [|split].
  - intros name id1 id2 H. apply String.app_inj in H. by injection H.
  - intros name1 name2 id H. by apply string_app_inj_r in H.
  - intros a b id. by rewrite string_app_assoc.
Qed.

(** X5.  With the exclusion list as [loadMetrics] prepares it, a metadata
    entry is excluded exactly when one of the configured exclusion names has
    the same lowercase form as the entry's metric name; with an empty
    configuration nothing is excluded. *)
Theorem isExcluded_iff pc meta :
  isExcluded E (lowerExcludes E pc) meta = true <->
  exists em, em ∈ ExcludeMetrics E pc /\
             ToLower E em = ToLower E (MetricName E meta).
Proof.
  unfold isExcluded, lowerExcludes, IsStrInList.
  destruct (ExcludeMetrics E pc) as [|em0 rest] eqn:Hex; simpl.
  - split; [done|]. intros (em & Hin & _). by apply elem_of_nil in Hin.
  - rewrite bool_decide_eq_true.
    change (ToLower E em0 :: map (ToLower E) rest)
      with (ToLower E <$> (em0 :: rest)).
    rewrite list_elem_of_fmap. split.
    + intros (em & Heq & Hin). by exists em.
    + intros (em & Hin & Heq). by exists em.
Qed.

(** *** Errors that stop the cycle early *)

(** X6.  The two structural errors stop the cycle before anything is
    loaded.  When the instance listing fails, [LoadMetricsByProductConf]
    returns that error and registry, objects and queries are as they were.
    When the product configuration is missing, the rest of the cycle returns
    that error without listing a metric or reading the clock: the collector
    is left exactly as it was. *)
Theorem structural_errors_load_nothing c e :
  ((GetInstances E (ReloadIAMProjects E (Outside c)).2).1.2 = Some e ->
   exists c',
     LoadMetricsByProductConf E c = Some (Some e, c') /\
     MetricMap c' = MetricMap c /\ Heap c' = Heap c /\ Queries c' = Queries c) /\
  (GetProductConfig E (Namespace c) (Outside c) = inr e ->
   forall instances,
     loadMetrics E instances c = Some (Some e, c) /\
     loadFromInstances E instances c = Some (Some e, c)).
Proof.
  split.
  - intros Hfail. unfold LoadMetricsByProductConf.
    destruct (snapshotInstances E c) as [[ir c1]|] eqn:Hs.
    2: { unfold snapshotInstances in Hs. run. discriminate. }
    pose proof (snapshotInstances_sameStore _ _ _ Hs) as [Hm Hh].
    pose proof (snapshotInstances_sameQueries _ _ _ Hs) as (_ & _ & Hq).
    assert (Hir : ir.2 = Some e).
    { unfold snapshotInstances in Hs. run. simplify_eq.
      destruct (size (MetricMap c) =? 0); exact Hfail. }
    unfold bind. rewrite Hs, Hir. by exists c1.
  - intros Hpc instances.
    assert (Hl : loadMetrics E instances c = Some (Some e, c))
      by (unfold loadMetrics; run; by rewrite Hpc).
    split; [exact Hl|]. unfold loadFromInstances, bind. by rewrite Hl.
Qed.

(** X7.  On a collector whose registry points to objects only, a reload
    cycle does not panic: it returns, and the registry it leaves still points
    to objects only.  (Every entry the [range] visits is an entry of the
    registry.) *)
Theorem LoadMetricsByProductConf_never_panics c :
  (forall m, RangeOrder E m ≡ₚ map_to_list m) ->
  wf c ->
  exists r c', LoadMetricsByProductConf E c = Some (r, c') /\ wf c'.
Proof. intros Hperm Hwf. by apply LoadMetricsByProductConf_wf. Qed.

(** *** Queries and the objects they point to *)

Lemma validQueries_app c c' entries :
  validQueries c ->
  length (Heap c) <= length (Heap c') ->
  (forall e, e ∈ entries -> e.2 < length (Heap c')) ->
  Queries c' = Queries c ++ queriesFor (MetricRepo c) entries ->
  validQueries c'.
Proof.
  unfold validQueries. intros Hv Hlen Hin ->. apply Forall_app. split.
  - eapply Forall_impl; [exact Hv|]. simpl. intros q Hq. lia.
  - unfold queriesFor. apply Forall_fmap, Forall_forall. intros e He. by apply Hin.
Qed.

(** X8.  If every query of the Query Set points to an object before a
    reload cycle, so does every query after it, whether the cycle succeeds or
    returns an error: the cycle only appends queries for metrics it has just
    read. *)
Theorem LoadMetricsByProductConf_keeps_queries_valid c r c' :
  validQueries c ->
  LoadMetricsByProductConf E c = Some (r, c') ->
  validQueries c'.
Proof.
  intros Hv H.
  pose proof (lift_cycle KR (fun _ => True) keepsRegistry_trans keepsRegistry_store
                (fun pc ex ins meta _ => loadMeta_keepsRegistry pc ex ins meta)
                (fun _ => I) _ _ _ H) as [_ Hlen].
  apply LoadMetricsByProductConf_inv in H as (ir & c1 & _ & (_ & _ & Hq1) & H).
  destruct ir.2 as [e|].
  { destruct H as [_ ->]. unfold validQueries in *. rewrite Hq1.
    eapply Forall_impl; [exact Hv|]. simpl. intros q Hq. lia. }
  destruct H as (instances & c2 & _ & (_ & Hrepo & Hq2) & H).
  unfold loadFromInstances in H. apply bind_Some in H as (err & c3 & Hl & H).
  pose proof (loadMetrics_sameQueries _ _ _ _ Hl) as (_ & Hrepo3 & Hq3).
  destruct err as [e|].
  { run. simplify_eq. unfold validQueries in *. rewrite Hq3, Hq2.
    eapply Forall_impl; [exact Hv|]. simpl. intros q Hq. lia. }
  run. destruct (rangeQueries E _ _ _) as [[r' c4]|] eqn:Hr; [|discriminate].
  apply rangeQueries_spec in Hr as (visited & -> & Hpre & _). simpl in *.
  assert (Hvis : forall e, e ∈ visited -> e.2 < length (Heap c3)).
  { intros e He. destruct Hpre as [rest Hrest].
    assert (Hin : e ∈ freshEntries E (Now E (Outside c3)).1 (Heap c3)
                        (RangeOrder E (MetricMap c3)))
      by (rewrite Hrest; apply elem_of_app; by left).
    unfold freshEntries in Hin. apply list_elem_of_filter in Hin as [Hf _].
    unfold isFresh in Hf. destruct (Heap c3 !! e.2) eqn:Hp; [|done].
    by eapply lookup_lt_Some. }
  assert (Hfinal : validQueries
            (set_Queries (fun _ => Queries c3 ++ queriesFor (MetricRepo c3) visited)
               (set_Outside (Now E (Outside c3)).2 c3))).
  { apply (validQueries_app c _ visited Hv).
    - simpl. by destruct r'; simplify_eq.
    - exact Hvis.
    - simpl. by rewrite Hq3, Hq2, Hrepo3, Hrepo. }
  destruct r'; by simplify_eq.
Qed.

(** *** [initQueries] *)

Lemma initLoop_spec entries c r c' :
  initLoop E entries c = Some (r, c') ->
  exists visited,
    c' = set_Queries (fun _ => Queries c ++ queriesFor (MetricRepo c) visited) c /\
    visited `prefix_of` entries /\
    (r = None -> visited = entries) /\
    (forall e, r = Some e -> exists obj repo, NewQueryErr E obj repo = Some e).
Proof.
  revert c. induction entries as [|[k p] rest IH]; intros c H; simpl in H.
  - run. simplify_eq. exists []. simpl. rewrite app_nil_r.
    split; [by match goal with |- ?x = _ => destruct x end | done].
  - apply bind_Some in H as (obj & c1 & Hd & H).
    unfold deref in Hd. destruct (Heap c !! p) as [obj'|] eqn:Hp; simplify_eq.
    unfold NewQuery in H. run.
    destruct (NewQueryErr E obj (MetricRepo c1)) as [e|] eqn:Hq.
    + simplify_eq. exists []. simpl. rewrite app_nil_r.
      split; [by match goal with |- ?x = _ => destruct x end|].
      split; [apply prefix_nil|]. split; [done|]. intros ? [= <-]. eauto.
    + apply IH in H as (visited & -> & Hpre & Hall & Herr). simpl in *.
      exists ((k, p) :: visited). simpl. rewrite <- app_assoc. simpl.
      split; [reflexivity|]. split; [by apply prefix_cons|].
      split; [|done]. intros ->. by rewrite Hall.
Qed.

(** X9.  [initQueries] leaves registry and objects alone.  When it
    succeeds it has appended one query for every entry of the registry, in
    the order of the [range], whatever the load time of the metric.  When it
    returns an error, the error is that of a query that could not be built,
    and the queries that were there before are still there. *)
Theorem initQueries_queries_every_metric c r c' :
  initQueries E c = Some (r, c') ->
  MetricMap c' = MetricMap c /\ Heap c' = Heap c /\
  Queries c `prefix_of` Queries c' /\
  (r = None ->
   Queries c' =
     Queries c ++ queriesFor (MetricRepo c) (RangeOrder E (MetricMap c))) /\
  (forall e, r = Some e -> exists obj repo, NewQueryErr E obj repo = Some e).
Proof.
  unfold initQueries. intros H. run.
  destruct (initLoop E _ c) as [[r' c1]|] eqn:Hloop; [|discriminate].
  apply initLoop_spec in Hloop as (visited & -> & Hpre & Hall & Herr).
  destruct r' as [e|]; simplify_eq; simpl.
  - split; [done|]. split; [done|]. split; [by apply prefix_app_r|].
    split; [done|]. intros ? [= <-]. by apply Herr.
  - split; [done|]. split; [done|]. split; [by apply prefix_app_r|].
    split; [|done]. intros _. by rewrite Hall.
Qed.

(** *** A reloader that is never stopped *)

Lemma selectLoop_without_Stop sched c :
  (forall m, RangeOrder E m ≡ₚ map_to_list m) ->
  wf c ->
  Forall (fun ev => stopArrives ev = false) sched ->
  exists c',
    selectLoop E false sched c = Some (Selecting, c') /\
    reloads c' = reloads c + length sched.
Proof.
  intros Hperm Hwf Hall. revert c Hwf.
  induction Hall as [|ev rest Hev _ IH]; intros c Hwf; simpl.
  - exists c. by rewrite Nat.add_0_r.
  - rewrite Hev. simpl.
    destruct (reloadOnce_wf Hperm c Hwf) as ([] & c1 & H1 & Hwf1).
    unfold bind at 1. rewrite H1. apply reloadOnce_reloads in H1.
    destruct (IH c1 Hwf1) as (c' & -> & Hr). exists c'. split; [done | lia].
Qed.

(** X10.  With a positive reload interval and as long as no cancellation
    arrives, [Run] does not return, whichever case its [select] would prefer
    and whether or not the reloads return errors: after the first sleep it
    has reloaded once, and it reloads once more on every tick. *)
Theorem Run_without_Stop_keeps_reloading reloadInterval sched c :
  (forall m, RangeOrder E m ≡ₚ map_to_list m) ->
  wf c ->
  (0 < reloadInterval)%Z ->
  Forall (fun ev => stopArrives ev = false) sched ->
  exists c',
    Run E reloadInterval false sched c = Some (Selecting, c') /\
    reloads c' = reloads c + S (length sched).
Proof.
  intros Hperm Hwf Hlt Hall. unfold Run, NewTicker.
  apply Z.ltb_lt in Hlt. unfold bind at 1. rewrite Hlt.
  unfold bind at 1. unfold call at 1. simpl.
  destruct (reloadOnce_wf Hperm
              (set_Outside (Sleep E reloadInterval (Outside c)) c) Hwf)
    as ([] & c1 & H1 & Hwf1).
  unfold bind. rewrite H1. apply reloadOnce_reloads in H1.
  change (reloads (set_Outside (Sleep E reloadInterval (Outside c)) c))
    with (reloads c) in H1.
  destruct (selectLoop_without_Stop sched c1 Hperm Hwf1 Hall) as (c' & -> & Hr).
  exists c'. split; [done | lia].
Qed.

(** *** Which instances a cycle registers *)

Lemma loadFromInstances_new_keys instances c r c' :
  loadFromInstances E instances c = Some (r, c') ->
  forall k p,
    MetricMap c' !! k = Some p ->
    MetricMap c !! k = Some p \/ keyOf E (fun ins => ins ∈ instances) k.
Proof.
  apply (lift_loadFromInstances
           (fun c c' : Coll' => forall k p,
              MetricMap c' !! k = Some p ->
              MetricMap c !! k = Some p \/ keyOf E (fun ins => ins ∈ instances) k)
           (fun ins => ins ∈ instances)).
  - intros c1 c2 c3 H1 H2 k p Hk.
    destruct (H2 k p Hk) as [Hk2|Hnew]; [by apply H1 | by right].
  - intros c1 c2 [Hm _] k p Hk. left. by rewrite <- Hm.
  - intros pc ex ins meta Hin c1 [] c2 H k p Hk.
    destruct (loadMeta_addsOnly (fun ins => ins ∈ instances) pc ex ins meta Hin
                c1 tt c2 H k p Hk) as [Hold | (ins' & meta' & Hin' & _ & Hkey)];
      [by left | right; by exists ins', meta'].
  - by apply Forall_forall.
Qed.

(** *** The log only grows *)

#[local] Abbreviation LG := (@logGrows Metric Repo World).

Lemma logGrows_refl c : LG c c.
Proof. by unfold logGrows. Qed.

Lemma logGrows_trans c1 c2 c3 : LG c1 c2 -> LG c2 c3 -> LG c1 c3.
Proof. unfold logGrows. intros H1 H2. by etrans. Qed.

Lemma logGrows_log l m : preserves LG (log l m).
Proof.
  intros c a c' H. run. simplify_eq. unfold logGrows. simpl.
  by apply prefix_app_r.
Qed.

Lemma logGrows_logIfErr e l m : preserves LG (logIfErr e l m).
Proof.
  destruct e; [apply logGrows_log|].
  intros c a c' H. run. simplify_eq. apply logGrows_refl.
Qed.

Lemma logGrows_modify f :
  (forall c, Logged (f c) = Logged c) -> preserves LG (modify f).
Proof.
  intros Hf c a c' H. run. simplify_eq. unfold logGrows. by rewrite Hf.
Qed.

Lemma logGrows_call {A} (f : World -> A * World) : preserves LG (call f).
Proof. intros c a c' H. run. simplify_eq. by unfold logGrows. Qed.

Lemma logGrows_alloc (m : Metric) : preserves LG (alloc m).
Proof. intros c a c' H. run. simplify_eq. by unfold logGrows. Qed.

Lemma logGrows_deref p : preserves LG (@deref Metric Repo World p).
Proof.
  intros c a c' H. unfold deref in H.
  destruct (Heap c !! p); simplify_eq. apply logGrows_refl.
Qed.

Lemma logGrows_store p (m : Metric) : preserves LG (store p m).
Proof. by apply logGrows_modify. Qed.

Ltac grows :=
  repeat first
    [ apply (preserves_ret _ logGrows_refl)
    | apply (preserves_get _ logGrows_refl)
    | apply logGrows_call
    | apply logGrows_logIfErr
    | apply logGrows_log
    | apply logGrows_alloc
    | apply logGrows_deref
    | apply logGrows_store
    | apply logGrows_modify; intros ?; reflexivity
    | apply (preserves_bind _ logGrows_trans); [|intros ?]
    | apply (preserves_forEach _ logGrows_refl logGrows_trans); intros ?
    | match goal with
      | |- preserves _ (match ?x with _ => _ end) => destruct x
      end ].

Lemma rangeQueries_logGrows now entries :
  preserves LG (rangeQueries E now entries).
Proof.
  induction entries as [|[k p] rest IH]; simpl; grows; try exact IH.
Qed.

Lemma loadFromInstances_logGrows instances :
  preserves LG (loadFromInstances E instances).
Proof.
  unfold loadFromInstances, loadMetrics, loadInstance, loadMeta,
    createMetricWithMeta.
  grows; apply rangeQueries_logGrows.
Qed.

(** *** Which instances a cycle processes *)

Lemma loadFromInstances_processes pc kept c0 r c' :
  GetProductConfig E (Namespace c0) (Outside c0) = inl pc ->
  loadFromInstances E kept c0 = Some (r, c') ->
  processes E pc kept c0 c'.
Proof.
  intros Hpc H.
  pose proof (loadFromInstances_new_keys _ _ _ _ H) as Hnew.
  unfold loadFromInstances in H. apply bind_Some in H as (err & c3 & Hl & H).
  assert (Hfor : forEach (loadInstance E pc (lowerExcludes E pc)) kept c0
                 = Some (tt, c3) /\ err = None).
  { unfold loadMetrics in Hl. unfold bind at 1 in Hl. simpl in Hl.
    rewrite Hpc in Hl. apply bind_Some in Hl as ([] & c4 & Hfor & Hret).
    unfold ret in Hret. by simplify_eq. }
  destruct Hfor as [Hfor ->].
  assert (Hstore : sameStore c3 c').
  { run. destruct (rangeQueries E _ _ _) as [[r' c4]|] eqn:Hr; [|discriminate].
    apply rangeQueries_sameStore in Hr as [Hm Hh]. simpl in *.
    destruct r'; simplify_eq; by split. }
  split; [|split].
  - exists c3. destruct Hstore as [Hm Hh]. by split.
  - intros i ins Hi. pose proof Hfor as Hf2.
    rewrite <- (take_drop_middle kept i ins Hi), forEach_app in Hf2.
    apply bind_Some in Hf2 as ([] & ca & Hca & Hf2). simpl in Hf2.
    apply bind_Some in Hf2 as ([] & cb & Hcb & Hrest).
    exists ca, cb. split; [done|]. split; [done|].
    eapply keepsRegistry_trans; [|by apply keepsRegistry_store].
    apply (lift_instances KR keepsRegistry_trans keepsRegistry_store
             pc (lowerExcludes E pc) (drop (S i) kept)) in Hrest; [done|].
    apply Forall_forall. intros ins' _ meta. apply loadMeta_keepsRegistry.
  - exact Hnew.
Qed.


(** X16.  Whatever a reload cycle adds to the registry is the key of an
    instance of the listing it has just read; in a namespace that bounds its
    instances, it is the key of one of the first [DefaultSupportInstances]
    of them: an instance beyond the maximum is never registered. *)
Theorem LoadMetricsByProductConf_registers_listed_instances c r c' k p :
  LoadMetricsByProductConf E c = Some (r, c') ->
  MetricMap c' !! k = Some p ->
  MetricMap c !! k = Some p \/
  exists ins meta,
    ins ∈ (GetInstances E (ReloadIAMProjects E (Outside c)).2).1.1 /\
    (IsSupportMultiDimensionNamespace E (Namespace c) = true ->
     ins ∈ take (DefaultSupportInstances E)
             (GetInstances E (ReloadIAMProjects E (Outside c)).2).1.1) /\
    k = metricKey (MetricName E meta) (GetInstanceID E ins).
Proof.
  intros H Hk.
  apply LoadMetricsByProductConf_inv in H as (ir & c1 & Hs & (Hns1 & _) & H).
  pose proof (snapshotInstances_sameStore _ _ _ Hs) as [Hm1 _].
  assert (Hir : ir = (GetInstances E (ReloadIAMProjects E (Outside c)).2).1).
  { unfold snapshotInstances in Hs. run. simplify_eq.
    by destruct (size (MetricMap c) =? 0). }
  destruct ir.2 as [e|].
  { destruct H as [_ ->]. left. by rewrite <- Hm1. }
  destruct H as (instances & c2 & Hb & _ & H).
  pose proof (boundInstances_sameStore _ _ _ _ Hb) as [Hm2 _].
  destruct (loadFromInstances_new_keys _ _ _ _ H k p Hk)
    as [Hold | (ins & meta & Hin & Hkey)].
  { left. by rewrite <- Hm1, <- Hm2. }
  right. exists ins, meta. rewrite <- Hir.
  unfold boundInstances in Hb. run. rewrite Hns1 in Hb.
  destruct (IsSupportMultiDimensionNamespace E (Namespace c)).
  - destruct (DefaultSupportInstances E <? length ir.1) eqn:Hmax; simplify_eq.
    + split; [|done]. by eapply subseteq_take.
    + apply Nat.ltb_ge in Hmax. by rewrite take_ge.
  - simplify_eq. done.
Qed.

(** *** One object for every key *)

Lemma loadMeta_distinctObjects pc ex ins meta c c' :
  loadMeta E pc ex ins meta c = Some (tt, c') ->
  wf c /\ distinctObjects c -> wf c' /\ distinctObjects c'.
Proof.
  intros H [Hwf Hinj]. apply loadMeta_cases in H
    as [[_ ->] | [(_ & Hm & Hh) | (_ & p & heap1 & obj & Hcase & Hlt & Hm & Hh)]].
  - done.
  - unfold wf, distinctObjects. by rewrite Hm, Hh.
  - assert (Hlen : length (Heap c) <= length (Heap c')).
    { rewrite Hh, length_insert.
      destruct Hcase as [[_ ->] | (_ & _ & nm & ->)]; [done|].
      rewrite length_app. lia. }
    assert (Hother : forall k, MetricMap c !! k = Some p ->
              k = metricKey (MetricName E meta) (GetInstanceID E ins)).
    { intros k Hk. destruct Hcase as [[Hkey _] | (_ & -> & _)].
      - by apply (Hinj _ _ _ Hk Hkey).
      - apply Hwf in Hk. lia. }
    split.
    + intros k q. rewrite Hm, lookup_insert. case_decide as Hkey.
      * intros [= <-]. by rewrite Hh, length_insert.
      * intros Hk. apply Hwf in Hk. lia.
    + intros k1 k2 q. rewrite Hm, !lookup_insert.
      repeat case_decide; intros H1 H2; simplify_eq.
      * done.
      * by apply Hother in H2.
      * by apply Hother in H1.
      * by eapply Hinj.
Qed.

(** X17.  If the registry points to objects only and no two of its keys
    share an object, the same holds after a reload cycle: a key the cycle
    adds gets an object of its own, which no other key leads to. *)
Theorem LoadMetricsByProductConf_keeps_objects_apart c r c' :
  wf c ->
  distinctObjects c ->
  LoadMetricsByProductConf E c = Some (r, c') ->
  wf c' /\ distinctObjects c'.
Proof.
  intros Hwf Hinj H.
  apply (lift_cycle
           (fun c c' : Coll' =>
              wf c /\ distinctObjects c -> wf c' /\ distinctObjects c')
           (fun _ => True)) in H; [by apply H | | | | done].
  - intros c1 c2 c3 H1 H2 H0. by apply H2, H1.
  - intros c1 c2 [Hm Hh]. unfold wf, distinctObjects. by rewrite Hm, Hh.
  - intros pc ex ins meta _ c1 [] c2 Hl. by eapply loadMeta_distinctObjects.
Qed.

(** X18.  A reload cycle creates exactly one object for every key it adds
    to the registry: the heap grows by as many objects as the registry grows
    by entries, whether or not the cycle returns an error. *)
Theorem LoadMetricsByProductConf_allocates_per_key c r c' :
  LoadMetricsByProductConf E c = Some (r, c') ->
  length (Heap c') + size (MetricMap c) = length (Heap c) + size (MetricMap c').
Proof.
  apply (lift_cycle
           (fun c c' : Coll' =>
              length (Heap c') + size (MetricMap c)
              = length (Heap c) + size (MetricMap c'))
           (fun _ => True)); [| | |done].
  - intros c1 c2 c3 H1 H2. lia.
  - intros c1 c2 [Hm Hh]. by rewrite Hm, Hh.
  - intros pc ex ins meta _ c1 [] c2 H. apply loadMeta_cases in H
      as [[_ ->] | [(_ & Hm & Hh) | (_ & p & heap1 & obj & Hcase & Hlt & Hm & Hh)]].
    + done.
    + by rewrite Hm, Hh.
    + rewrite Hm, Hh, length_insert.
      destruct Hcase as [[Hkey ->] | (Hkey & _ & nm & ->)].
      * by rewrite insert_id.
      * rewrite map_size_insert_None by done. rewrite length_app. simpl. lia.
Qed.

(** *** The constructor *)

Context {InstanceRepository : Type}.
Variable F : Factory ProductConf World InstanceRepository.

Lemma newCollector_wf ns (repo : Repo) log0 (w : World) :
  wf (newCollector ns repo log0 w : Coll').
Proof. intros k p Hk. simpl in Hk. by rewrite lookup_empty in Hk. Qed.

Lemma cycleZeroOf_newCollector ns (repo : Repo) log0 (w : World) :
  cycleZeroOf E (newCollector ns repo log0 w)
  = LoadMetricsByProductConf E (newCollector ns repo log0 w).
Proof.
  unfold cycleZeroOf, LoadMetricsByMetricConf. unfold bind at 1 2.
  unfold modify, ret. simpl. by rewrite map_size_empty.
Qed.

Lemma newInstanceRepoCache_None namespace productConf w :
  newInstanceRepoCache F namespace productConf w = None <->
  (namespace ∉ NotSupportInstanceNamespaces F) /\
  (exists repo, (NewInstanceRepository F namespace w).1 = inl repo) /\
  productConf = None.
Proof.
  unfold newInstanceRepoCache, IsStrInList.
  destruct (bool_decide_reflect (namespace ∈ NotSupportInstanceNamespaces F));
    simpl.
  - split; [discriminate | by intros [? _]].
  - destruct (NewInstanceRepository F namespace w).1 as [repo|e]; simpl.
    + destruct productConf as [pc|].
      * split; [discriminate | by intros (_ & _ & ?)].
      * split; [intros _ | done]. split; [done|]. split; [by exists repo | done].
    + split; [discriminate | by intros (_ & [? ?] & _)].
Qed.

Lemma newInstanceRepoCache_cache namespace productConf w cache w1 :
  newInstanceRepoCache F namespace productConf w = Some (inl cache, w1) ->
  cache = None <-> namespace ∈ NotSupportInstanceNamespaces F.
Proof.
  unfold newInstanceRepoCache, IsStrInList.
  destruct (bool_decide_reflect (namespace ∈ NotSupportInstanceNamespaces F));
    simpl.
  - intros [= <- _]. done.
  - destruct (NewInstanceRepository F namespace w).1; [|discriminate].
    destruct productConf; [|discriminate]. intros [= <- _].
    split; [discriminate | done].
Qed.

Lemma newInstanceRepoCache_error namespace productConf w e w1 :
  newInstanceRepoCache F namespace productConf w = Some (inr e, w1) ->
  (namespace ∉ NotSupportInstanceNamespaces F) /\
  NewInstanceRepository F namespace w = (inr e, w1).
Proof.
  unfold newInstanceRepoCache, IsStrInList.
  destruct (bool_decide_reflect (namespace ∈ NotSupportInstanceNamespaces F));
    simpl; [discriminate|].
  destruct (NewInstanceRepository F namespace w) as [[repo|e'] w'] eqn:Hr; simpl.
  - destruct productConf; discriminate.
  - intros [= <- <-]. done.
Qed.



End CycleFacts.

(** ** Facts about the scrape *)

Section ScrapeFacts.

Context {Meta MetricConfig Metric Series Instance ProductConf Repo Sample World : Type}.
Variable E : Env Meta MetricConfig Metric Series Instance ProductConf Repo Sample World.

Implicit Types s : Scrape Repo Sample.
Implicit Types ts : list (Task Repo Sample).

Lemma pendingFrom_insert ts : forall i j t,
  ts !! j = Some t ->
  exists others,
    pendingFrom E i ts ≡ₚ owed E (i + j) t ++ others /\
    forall t', pendingFrom E i (<[j := t']> ts) ≡ₚ owed E (i + j) t' ++ others.
Proof.
  induction ts as [|t0 ts IH]; intros i j t Hj; [done|].
  destruct j as [|j]; simpl in *.
  - simplify_eq. rewrite Nat.add_0_r. by exists (pendingFrom E (S i) ts).
  - destruct (IH (S i) j t Hj) as (others & H1 & H2).
    replace (i + S j) with (S i + j) by lia.
    exists (owed E i t0 ++ others). split.
    + rewrite H1. by rewrite !app_assoc, (Permutation_app_comm (owed E i t0)).
    + intros t'. rewrite H2.
      by rewrite !app_assoc, (Permutation_app_comm (owed E i t0)).
Qed.

Lemma pendingFrom_Finished ts i :
  forallb isFinished ts = true -> pendingFrom E i ts = [].
Proof.
  revert i. induction ts as [|[] ts IH]; intros i H; simpl in *; try done.
  by apply IH.
Qed.

Lemma pendingFrom_Fetching groups i :
  pendingFrom E i (map Fetching groups) = deliveredFrom E i groups.
Proof.
  revert i. induction groups as [|q rest IH]; intros i; simpl; [done|].
  by rewrite IH.
Qed.

(** One step keeps what was sent and moves at most one sample from the
    pending ones to the sink. *)
Lemma stepTask_invariant s i :
  exists sent,
    ch (stepTask E s i) = ch s ++ sent /\
    sent ++ pendingFrom E 0 (tasks (stepTask E s i)) ≡ₚ pendingFrom E 0 (tasks s).
Proof.
  unfold stepTask. destruct (tasks s !! i) as [t|] eqn:Ht.
  2: { exists []. by rewrite app_nil_r. }
  destruct (pendingFrom_insert (tasks s) 0 i t Ht) as (others & H1 & H2).
  simpl in *. destruct t as [q|[|pm rest]|]; simpl in *.
  - unfold delivered in H1.
    destruct (GetPromMetricsByQueries E i q).2 eqn:Herr; simpl;
      exists []; rewrite app_nil_r; (split; [done|]); by rewrite H1, H2.
  - exists []. rewrite app_nil_r. split; [done|]. by rewrite H1, H2.
  - exists [pm]. split; [done|]. by rewrite H1, H2.
  - exists []. by rewrite app_nil_r.
Qed.

Lemma foldl_stepTask_invariant sched s :
  exists sent,
    ch (foldl (stepTask E) s sched) = ch s ++ sent /\
    sent ++ pendingFrom E 0 (tasks (foldl (stepTask E) s sched))
      ≡ₚ pendingFrom E 0 (tasks s).
Proof.
  revert s. induction sched as [|i sched IH]; intros s; simpl.
  - exists []. by rewrite app_nil_r.
  - destruct (stepTask_invariant s i) as (sent1 & Hc1 & Hp1).
    destruct (IH (stepTask E s i)) as (sent2 & Hc2 & Hp2).
    exists (sent1 ++ sent2). split.
    + by rewrite Hc2, Hc1, app_assoc.
    + by rewrite <- app_assoc, Hp2.
Qed.

(** *** Running the goroutines in turn *)

Lemma foldl_step {A B} (f : A -> B -> A) a x l :
  foldl f a (x :: l) = foldl f (f a x) l.
Proof. reflexivity. Qed.

Lemma stepTask_Finished s i :
  tasks s !! i = Some Finished -> stepTask E s i = s.
Proof. intros Hi. unfold stepTask. by rewrite Hi. Qed.

Lemma stepTask_Sending s i pm rest :
  tasks s !! i = Some (Sending (pm :: rest)) ->
  stepTask E s i =
    {| tasks := <[i := Sending rest]> (tasks s); ch := ch s ++ [pm];
       logger := logger s |}.
Proof. intros Hi. unfold stepTask. by rewrite Hi. Qed.

Lemma stepTask_Sent s i :
  tasks s !! i = Some (Sending []) ->
  stepTask E s i =
    {| tasks := <[i := Finished]> (tasks s); ch := ch s; logger := logger s |}.
Proof. intros Hi. unfold stepTask. by rewrite Hi. Qed.

Lemma run_Finished k s i :
  tasks s !! i = Some Finished ->
  foldl (stepTask E) s (replicate k i) = s.
Proof.
  intros Hi. induction k as [|k IH]; [done|].
  by rewrite replicate_S, foldl_step, stepTask_Finished.
Qed.

Lemma run_Sending pms : forall s i,
  tasks s !! i = Some (Sending pms) ->
  foldl (stepTask E) s (replicate (S (length pms)) i) =
    {| tasks := <[i := Finished]> (tasks s); ch := ch s ++ pms;
       logger := logger s |}.
Proof.
  induction pms as [|pm rest IH]; intros s i Hi.
  - simpl. rewrite stepTask_Sent by done. by rewrite app_nil_r.
  - pose proof (lookup_lt_Some _ _ _ Hi) as Hlt.
    simpl length. rewrite replicate_S, foldl_step.
    rewrite (stepTask_Sending s i pm rest Hi).
    rewrite IH by (simpl; by apply list_lookup_insert_eq).
    simpl. by rewrite list_insert_insert_eq, <- app_assoc.
Qed.

Lemma run_Fetching q s i :
  tasks s !! i = Some (Fetching q) ->
  tasks (foldl (stepTask E) s (replicate (2 + length (delivered E i q)) i))
    = <[i := Finished]> (tasks s) /\
  ch (foldl (stepTask E) s (replicate (2 + length (delivered E i q)) i))
    = ch s ++ delivered E i q.
Proof.
  intros Hi. pose proof (lookup_lt_Some _ _ _ Hi) as Hlt.
  change (2 + length (delivered E i q)) with (S (S (length (delivered E i q)))).
  rewrite replicate_S, foldl_step.
  assert (Hstep : stepTask E s i =
    match (GetPromMetricsByQueries E i q).2 with
    | Some _ =>
        {| tasks := <[i := Finished]> (tasks s); ch := ch s;
           logger := logger s ++ [{| lvl := Error; msg := "Get samples fail" |}] |}
    | None =>
        {| tasks := <[i := Sending (GetPromMetricsByQueries E i q).1]> (tasks s);
           ch := ch s; logger := logger s |}
    end) by (unfold stepTask; by rewrite Hi).
  rewrite Hstep. unfold delivered.
  destruct (GetPromMetricsByQueries E i q).2 eqn:Herr.
  - rewrite run_Finished by (simpl; by apply list_lookup_insert_eq).
    simpl. by rewrite app_nil_r.
  - rewrite run_Sending by (simpl; by apply list_lookup_insert_eq).
    simpl. by rewrite list_insert_insert_eq.
Qed.

Lemma inTurn_run groups : forall pre s,
  tasks s = pre ++ map Fetching groups ->
  tasks (foldl (stepTask E) s (inTurn E (length pre) groups))
    = pre ++ map (fun _ => Finished) groups /\
  ch (foldl (stepTask E) s (inTurn E (length pre) groups))
    = ch s ++ deliveredFrom E (length pre) groups.
Proof.
  induction groups as [|q rest IH]; intros pre s Hs;
    cbn [inTurn deliveredFrom map].
  - simpl. rewrite Hs. simpl. by rewrite !app_nil_r.
  - rewrite foldl_app.
    assert (Hi : tasks s !! length pre = Some (Fetching q)).
    { rewrite Hs. simpl. by apply list_lookup_middle. }
    destruct (run_Fetching q s (length pre) Hi) as [Ht Hc].
    set (s1 := foldl (stepTask E) s _) in *.
    destruct (IH (pre ++ [Finished]) s1) as [Ht2 Hc2].
    { rewrite Ht, Hs. rewrite insert_app_r_alt, Nat.sub_diag by lia.
      simpl. by rewrite <- app_assoc. }
    rewrite length_app in Ht2, Hc2. simpl in Ht2, Hc2.
    rewrite Nat.add_1_r in Ht2, Hc2. rewrite Ht2, Hc2, Hc.
    by rewrite <- !app_assoc.
Qed.

(** C4.  Whatever the repository answers to each batch and however the
    goroutines are interleaved, when [Collect] returns it has put on the sink
    exactly the samples of the batches whose fetch succeeded (a batch whose
    fetch failed adds nothing and takes nothing away from the others), every
    goroutine has finished, and the error it returns is nil.  It does return:
    letting the goroutines run in turn, the sink receives the samples batch by
    batch.  The Query Set is left as it was. *)
Theorem Collect_emits_successful_batches sink c :
  (exists c',
     Collect E (inTurn E 0 (SplitByBatch (Queries c) (batchSize E c))) sink c =
       Some (None,
             sink ++ deliveredFrom E 0 (SplitByBatch (Queries c) (batchSize E c)),
             c') /\
     Queries c' = Queries c) /\
  (forall sched r sink' c',
     Collect E sched sink c = Some (r, sink', c') ->
     r = None /\
     Queries c' = Queries c /\
     forallb isFinished (tasks (foldl (stepTask E) (spawn E c sink) sched)) = true /\
     exists sent,
       sink' = sink ++ sent /\
       sent ≡ₚ deliveredFrom E 0 (SplitByBatch (Queries c) (batchSize E c))).
Proof.
  split.
  - unfold Collect.
    destruct (inTurn_run (SplitByBatch (Queries c) (batchSize E c)) [] (spawn E c sink))
      as [Ht Hc]; [done|].
    simpl in Ht, Hc. rewrite Ht, Hc.
    assert (Hfin : forall (l : list (list (Query Repo))),
              forallb isFinished (map (fun _ => @Finished Repo Sample) l) = true)
      by (induction l; simpl; auto).
    rewrite Hfin. eexists. split; [reflexivity | done].
  - intros sched r sink' c' H. unfold Collect in H.
    destruct (forallb isFinished _) eqn:Hfin; [|discriminate]. simplify_eq.
    split; [done|]. split; [done|]. split; [done|].
    destruct (foldl_stepTask_invariant sched (spawn E c sink)) as (sent & Hc & Hp).
    exists sent. split; [exact Hc|].
    rewrite (pendingFrom_Finished _ _ Hfin), app_nil_r in Hp.
    rewrite Hp. simpl. by rewrite pendingFrom_Fetching.
Qed.

(** *** The order of a scrape *)

Lemma stepTask_other s i j :
  i <> j -> tasks (stepTask E s j) !! i = tasks s !! i.
Proof.
  intros Hne. unfold stepTask.
  destruct (tasks s !! j) as [[q|[|pm rest]|]|]; simpl; try done;
    try (destruct (GetPromMetricsByQueries E j q).2; simpl);
    by rewrite list_lookup_insert_ne.
Qed.

Lemma stepTask_ch s j : exists more, ch (stepTask E s j) = ch s ++ more.
Proof.
  unfold stepTask.
  destruct (tasks s !! j) as [[q|[|pm rest]|]|]; simpl;
    try (destruct (GetPromMetricsByQueries E j q).2; simpl);
    try (exists []; by rewrite app_nil_r).
  by exists [pm].
Qed.

(** What goroutine [i] has put on the sink so far is, in order, the part of
    its batch's samples that it does not owe any more. *)
Lemma foldl_stepTask_order sched : forall s i q gone sent0,
  tasks s !! i = Some q ->
  gone `sublist_of` sent0 ->
  exists gone' sent t,
    ch (foldl (stepTask E) s sched) = ch s ++ sent /\
    tasks (foldl (stepTask E) s sched) !! i = Some t /\
    gone' ++ owed E i t = gone ++ owed E i q /\
    gone' `sublist_of` sent0 ++ sent.
Proof.
  induction sched as [|j sched IH]; intros s i t gone sent0 Hi Hsub.
  - exists gone, [], t. simpl. rewrite !app_nil_r. done.
  - rewrite foldl_step.
    destruct (decide (i = j)) as [<-|Hne].
    + assert (Hstep : exists t1 more gone1,
                tasks (stepTask E s i) !! i = Some t1 /\
                ch (stepTask E s i) = ch s ++ more /\
                gone1 ++ owed E i t1 = gone ++ owed E i t /\
                gone1 `sublist_of` sent0 ++ more).
      { pose proof (lookup_lt_Some _ _ _ Hi) as Hlt.
        unfold stepTask. rewrite Hi.
        destruct t as [q|[|pm rest]|]; simpl.
        - unfold delivered.
          destruct (GetPromMetricsByQueries E i q).2; simpl;
            eexists _, [], gone;
            (split; [by apply list_lookup_insert_eq|]);
            simpl; rewrite ?app_nil_r; done.
        - eexists _, [], gone.
          split; [by apply list_lookup_insert_eq|].
          simpl. rewrite ?app_nil_r. done.
        - eexists _, [pm], (gone ++ [pm]).
          split; [by apply list_lookup_insert_eq|]. split; [done|].
          split; [by rewrite <- app_assoc | by apply sublist_app].
        - exists Finished, [], gone. simpl. rewrite ?app_nil_r. done. }
      destruct Hstep as (t1 & more & gone1 & Ht1 & Hch & Howed & Hsub1).
      destruct (IH (stepTask E s i) i t1 gone1 (sent0 ++ more) Ht1 Hsub1)
        as (gone' & sent & t' & Hc' & Ht' & Ho' & Hs').
      exists gone', (more ++ sent), t'.
      rewrite Hc', Hch, <- !app_assoc. split; [done|]. split; [done|].
      split; [congruence | by rewrite app_assoc].
    + destruct (stepTask_ch s j) as [more Hch].
      destruct (IH (stepTask E s j) i t gone (sent0 ++ more))
        as (gone' & sent & t' & Hc' & Ht' & Ho' & Hs').
      { by rewrite stepTask_other. }
      { by apply sublist_inserts_r. }
      exists gone', (more ++ sent), t'.
      rewrite Hc', Hch, <- !app_assoc. split; [done|]. split; [done|].
      split; [done | by rewrite app_assoc].
Qed.

(** X14.  The samples of one batch reach the sink in the order in which the
    repository returned them: whatever the interleaving, what [Collect] has
    added to the sink contains the samples of every successful batch as a
    subsequence. *)
Theorem Collect_keeps_batch_order sched sink c r sink' c' i q :
  Collect E sched sink c = Some (r, sink', c') ->
  SplitByBatch (Queries c) (batchSize E c) !! i = Some q ->
  exists sent,
    sink' = sink ++ sent /\ delivered E i q `sublist_of` sent.
Proof.
  intros H Hq. unfold Collect in H.
  destruct (forallb isFinished _) eqn:Hfin; [|discriminate]. simplify_eq.
  destruct (foldl_stepTask_order sched (spawn E c sink) i (Fetching q) [] [])
    as (gone' & sent & t & Hch & Ht & Howed & Hsub).
  { simpl. by rewrite list_lookup_fmap, Hq. }
  { done. }
  exists sent. split; [exact Hch|].
  assert (Hfinished : t = Finished).
  { rewrite forallb_forall in Hfin. specialize (Hfin t).
    destruct t; try done; discriminate Hfin;
      apply list_elem_of_In; by eapply list_elem_of_lookup_2. }
  subst t. simpl in Howed. rewrite app_nil_r in Howed. by subst gone'.
Qed.

Lemma foldl_stepTask_unscheduled sched : forall s i,
  i ∉ sched ->
  tasks (foldl (stepTask E) s sched) !! i = tasks s !! i.
Proof.
  induction sched as [|j sched IH]; intros s i Hi; [done|].
  rewrite foldl_step. apply not_elem_of_cons in Hi as [Hne Hi].
  rewrite IH by done. by apply stepTask_other.
Qed.

(** X15.  [Collect] waits for every batch: as long as the goroutine of some
    batch has not run at all, it does not return. *)
Theorem Collect_waits_for_every_batch sched sink c i q :
  SplitByBatch (Queries c) (batchSize E c) !! i = Some q ->
  i ∉ sched ->
  Collect E sched sink c = None.
Proof.
  intros Hq Hi. unfold Collect.
  destruct (forallb isFinished _) eqn:Hfin; [|done].
  pose proof (foldl_stepTask_unscheduled sched (spawn E c sink) i Hi) as Ht.
  simpl in Ht. rewrite list_lookup_fmap, Hq in Ht. simpl in Ht.
  rewrite forallb_forall in Hfin. discriminate (Hfin (Fetching q)).
  apply list_elem_of_In. by eapply list_elem_of_lookup_2.
Qed.

Lemma foldl_stepTask_idle sched : forall s : Scrape Repo Sample,
  tasks s = [] -> foldl (stepTask E) s sched = s.
Proof.
  induction sched as [|i sched IH]; intros s Hs; [done|].
  rewrite foldl_step.
  assert (Hstep : stepTask E s i = s) by (unfold stepTask; by rewrite Hs).
  rewrite Hstep. by apply IH.
Qed.

(** X19.  With an empty Query Set there is no batch and no goroutine:
    [Collect] returns at once whatever the scheduler does, with a nil error,
    nothing put on the sink and the collector as it was. *)
Theorem Collect_of_no_queries sched sink c :
  Queries c = [] -> Collect E sched sink c = Some (None, sink, c).
Proof.
  intros Hq. unfold Collect.
  assert (Hs : tasks (spawn E c sink) = []) by (simpl; by rewrite Hq).
  rewrite foldl_stepTask_idle by done. rewrite Hs. simpl. by destruct c.
Qed.

End ScrapeFacts.

(** ** Facts about batching *)

Section BatchFacts.

Context {A : Type}.

Implicit Types qs : list A.

Lemma ceil_step L n :
  0 < n -> 0 < L -> (L + n - 1) / n = S ((L - n + n - 1) / n).
Proof.
  intros Hn HL. destruct (decide (n <= L)) as [Hle|Hgt].
  - replace (L + n - 1) with ((L - n + n - 1) + 1 * n) by lia.
    rewrite Nat.div_add by lia. lia.
  - replace (L - n + n - 1) with (n - 1) by lia.
    rewrite (Nat.div_small (n - 1)) by lia.
    symmetry. apply (Nat.div_unique _ _ _ (L - 1)); lia.
Qed.

Lemma splitFrom_spec n fuel : forall qs,
  0 < n -> length qs <= fuel ->
  concat (splitFrom fuel n qs) = qs /\
  length (splitFrom fuel n qs) = (length qs + n - 1) / n /\
  Forall (fun b => 0 < length b <= n) (splitFrom fuel n qs) /\
  (forall i b,
     splitFrom fuel n qs !! i = Some b ->
     S i < length (splitFrom fuel n qs) -> length b = n).
Proof.
  induction fuel as [|fuel IH]; intros qs Hn Hlen.
  - destruct qs; [|simpl in Hlen; lia]. simpl.
    rewrite Nat.div_small by lia. by repeat split.
  - destruct qs as [|x qs'].
    { simpl. rewrite Nat.div_small by lia. by repeat split. }
    cbn [splitFrom]. remember (x :: qs') as qs eqn:Hqs.
    assert (HL : 0 < length qs) by (rewrite Hqs; simpl; lia).
    clear Hqs x qs'.
    destruct (IH (drop n qs) Hn) as (Hcat & Hnum & Hall & Hfull).
    { rewrite length_drop. lia. }
    split; [|split; [|split]].
    + simpl. by rewrite Hcat, take_drop.
    + simpl. rewrite Hnum, length_drop.
      by rewrite (ceil_step (length qs) n).
    + constructor; [|done]. rewrite length_take. lia.
    + intros i b Hi Hlast. destruct i as [|i]; simpl in *.
      * simplify_eq. rewrite length_take.
        destruct (splitFrom fuel n (drop n qs)) as [|b' bs] eqn:Hrest;
          [simpl in Hlast; lia|].
        assert (0 < length (drop n qs)).
        { destruct (drop n qs); [|simpl; lia].
          destruct fuel; discriminate. }
        rewrite length_drop in *. lia.
      * apply (Hfull i b Hi). lia.
Qed.

(** C5.  For a positive batch size [n], [SplitByBatch] cuts a Query Set of
    length L into ceil(L/n) batches; every batch holds at least one and at
    most [n] queries, every batch but the last holds exactly [n], and the
    batches, put end to end, are the Query Set in its order.  The function is
    pure: the Query Set it is given is not touched. *)
Theorem SplitByBatch_spec qs n :
  0 < n ->
  length (SplitByBatch qs n) = (length qs + n - 1) / n /\
  Forall (fun b => 0 < length b <= n) (SplitByBatch qs n) /\
  (forall i b,
     SplitByBatch qs n !! i = Some b ->
     S i < length (SplitByBatch qs n) -> length b = n) /\
  concat (SplitByBatch qs n) = qs.
Proof.
  intros Hn. unfold SplitByBatch.
  destruct (splitFrom_spec n (length qs) qs Hn (le_n _)) as (H1 & H2 & H3 & H4).
  done.
Qed.

End BatchFacts.

(** ** The properties on the small deployment *)

Section DeploymentRuns.

Import Deployment.

Lemma env_RangeOrder (m : gmap string loc) : RangeOrder env m ≡ₚ map_to_list m.
Proof. reflexivity. Qed.

Lemma blank_wf ns w : wf (blank ns w).
Proof. intros k p Hk. simpl in Hk. by rewrite lookup_empty in Hk. Qed.

(** On the deployment: the second cycle extends the queries of cycle zero. *)
Lemma appends_to_queries_witness :
  LoadMetricsByProductConf env grown
    = Some (None, after (LoadMetricsByProductConf env grown) grown) /\
  Queries grown `prefix_of`
    Queries (after (LoadMetricsByProductConf env grown) grown).
Proof.
  split; [vm_compute; reflexivity|].
  apply (LoadMetricsByProductConf_appends_to_queries env grown None).
  vm_compute; reflexivity.
Defined.

(** C1 fails as stated: cycle zero queries the metric of [i-1]; five minutes
    later a cycle finds [i-2] as well.  Only the metric of [i-2] is fresh in
    that cycle, yet the Query Set it leaves still starts with the query of
    cycle zero. *)
Lemma reload_keeps_earlier_queries :
  LoadMetricsByProductConf env start = Some (None, cycleZero) /\
  Queries cycleZero = [query 0] /\
  exists c2,
    LoadMetricsByProductConf env grown = Some (None, c2) /\
    Now env (Outside grown) = (1300%Z, Outside c2) /\
    queriesFor tt (freshEntries env 1300 (Heap c2) (RangeOrder env (MetricMap c2)))
      = [query 1] /\
    Queries c2 = [query 0; query 1].
Proof.
  split; [vm_compute; reflexivity|]. split; [vm_compute; reflexivity|].
  eexists. split; [vm_compute; reflexivity|]. by vm_compute.
Qed.

(** On the deployment: the freshness test in the second cycle. *)
Lemma fresh_iff_witness :
  (forall m, RangeOrder env m ≡ₚ map_to_list m) /\
  LoadMetricsByProductConf env grown
    = Some (None, after (LoadMetricsByProductConf env grown) grown) /\
  exists w now qs,
    Now env w = (now, Outside (after (LoadMetricsByProductConf env grown) grown)) /\
    Queries (after (LoadMetricsByProductConf env grown) grown) = Queries grown ++ qs /\
    forall k p obj,
      MetricMap (after (LoadMetricsByProductConf env grown) grown) !! k = Some p ->
      Heap (after (LoadMetricsByProductConf env grown) grown) !! p = Some obj ->
      ((exists q, q ∈ qs /\ QMetric q = p) <->
       (wrap64 (now - LoadTimeAt env obj) < 60)%Z) /\
      ((60 <= wrap64 (now - LoadTimeAt env obj))%Z ->
       (forall q, q ∈ qs -> QMetric q <> p) /\
       MetricMap (after (LoadMetricsByProductConf env grown) grown) !! k = Some p) /\
      ((- 2 ^ 63 <= now - LoadTimeAt env obj < 2 ^ 63)%Z ->
       wrap64 (now - LoadTimeAt env obj) = (now - LoadTimeAt env obj)%Z).
Proof.
  split; [exact env_RangeOrder|]. split; [vm_compute; reflexivity|].
  apply (LoadMetricsByProductConf_fresh_iff env grown _ env_RangeOrder).
  vm_compute; reflexivity.
Defined.

(** C2 fails as stated at the boundary: a metric loaded at 1000 and looked
    at when the clock reads 1060 is 60 units old, and the cycle appends no
    query for it. *)
Lemma sixty_units_old_is_not_queried :
  exists c2,
    LoadMetricsByProductConf env atSixty = Some (None, c2) /\
    Now env (Outside atSixty) = (1060%Z, Outside c2) /\
    MetricMap c2 !! "cpu.i-1" = Some 0 /\
    LoadTimeAt env <$> Heap c2 !! 0 = Some 1000%Z /\
    (wrap64 (1060 - 1000) <= 60)%Z /\
    Queries c2 = Queries atSixty.
Proof.
  eexists. split; [vm_compute; reflexivity|]. by vm_compute.
Qed.

(** On the deployment: the metric of [i-1] is reused by the second cycle. *)
Lemma reuses_existing_witness :
  MetricMap grown !! metricKey (MetricName env "cpu") (GetInstanceID env "i-1") = Some 0 /\
  Heap grown !! 0 = Some {| tname := "cpu"; tloaded := 1000; tseries := ["i-1"] |} /\
  isExcluded env [] "cpu" = false /\
  createMetricWithMeta env "cpu" [] (GetInstanceID env "i-1") grown
    = Some (inl 0, grown).
Proof.
  split; [vm_compute; reflexivity|]. split; [vm_compute; reflexivity|].
  split; [vm_compute; reflexivity|].
  apply (createMetricWithMeta_reuses_existing env [] [] "i-1" "cpu" grown 0
           {| tname := "cpu"; tloaded := 1000; tseries := ["i-1"] |});
    vm_compute; reflexivity.
Defined.

(** On the deployment: two batches, the second of which cannot be fetched;
    the goroutine of the failing batch happens to run first. *)
Lemma Collect_witness :
  exists c',
    Collect env [1; 0; 0; 0; 0] [] threeQueries
      = Some (None, [(0, 2); (0, 0)], c') /\
    exists sent,
      [(0, 2); (0, 0)] = [] ++ sent /\
      sent ≡ₚ deliveredFrom env 0
                (SplitByBatch (Queries threeQueries) (batchSize env threeQueries)).
Proof.
  eexists. split; [vm_compute; reflexivity|].
  eapply (proj2 (Collect_emits_successful_batches env [] threeQueries)
            [1; 0; 0; 0; 0] None).
  vm_compute; reflexivity.
Defined.

(** Five queries in batches of two. *)
Lemma SplitByBatch_witness :
  0 < 2 /\
  length (SplitByBatch [query 0; query 1; query 2; query 3; query 4] 2)
    = (5 + 2 - 1) / 2 /\
  concat (SplitByBatch [query 0; query 1; query 2; query 3; query 4] 2)
    = [query 0; query 1; query 2; query 3; query 4].
Proof.
  split; [lia|].
  destruct (SplitByBatch_spec [query 0; query 1; query 2; query 3; query 4] 2)
    as (Hlen & _ & _ & Hcat); [lia|].
  split; [exact Hlen | exact Hcat].
Defined.

(** On the deployment: the cycle stops at the query that cannot be built. *)
Lemma per_item_errors_witness :
  LoadMetricsByProductConf env unqueryable
    = Some (Some "query refused",
            after (LoadMetricsByProductConf env unqueryable) unqueryable) /\
  exists w built,
    Outside (after (LoadMetricsByProductConf env unqueryable) unqueryable)
      = (Now env w).2 /\
    Queries (after (LoadMetricsByProductConf env unqueryable) unqueryable)
      = Queries unqueryable ++ queriesFor (MetricRepo unqueryable) built /\
    Forall (buildable env
              (Heap (after (LoadMetricsByProductConf env unqueryable) unqueryable))
              (MetricRepo unqueryable)) built /\
    exists k p obj rest,
      freshEntries env (Now env w).1
        (Heap (after (LoadMetricsByProductConf env unqueryable) unqueryable))
        (RangeOrder env
           (MetricMap (after (LoadMetricsByProductConf env unqueryable) unqueryable)))
        = built ++ (k, p) :: rest /\
      Heap (after (LoadMetricsByProductConf env unqueryable) unqueryable) !! p
        = Some obj /\
      NewQueryErr env obj (MetricRepo unqueryable) = Some "query refused".
Proof.
  assert (Hrun : LoadMetricsByProductConf env unqueryable
            = Some (Some "query refused",
                    after (LoadMetricsByProductConf env unqueryable) unqueryable))
    by (vm_compute; reflexivity).
  split; [exact Hrun|].
  exact (proj2 (proj2 (proj2 (per_item_errors_are_degraded env)))
           unqueryable _ _ Hrun).
Defined.

(** C6 fails as stated: the instance listing succeeds and the product
    configuration is there, both metrics are constructed and loaded, and the
    cycle still returns an error, the one of the query that could not be
    built for the second metric. *)
Lemma query_failure_is_returned :
  (GetInstances env (Outside unqueryable)).1.2 = None /\
  GetProductConfig env (Namespace unqueryable) (Outside unqueryable) = inl [] /\
  exists c',
    LoadMetricsByProductConf env unqueryable = Some (Some "query refused", c') /\
    MetricMap c' !! "broken.i-1" = Some 1 /\
    NewQueryErr env {| tname := "broken"; tloaded := 1000; tseries := ["i-1"] |} tt
      = Some "query refused".
Proof.
  split; [reflexivity|]. split; [reflexivity|].
  eexists. split; [vm_compute; reflexivity|]. by vm_compute.
Qed.

(** On the deployment: an interval of five minutes; [Stop] arrives during
    the first sleep and the first [select] takes the cancellation. *)
Lemma Run_witness :
  (forall m, RangeOrder env m ≡ₚ map_to_list m) /\
  wf start /\
  (0 < 300000000000)%Z /\
  exists st c1 c',
    reloadOnce env (set_Outside (Sleep env 300000000000 (Outside start)) start)
      = Some (tt, c1) /\
    Run env 300000000000 (Stop false)
      [{| stopArrives := false; prefersDone := true |}] start
      = Some (st, c') /\
    reloads start < reloads c'.
Proof.
  split; [exact env_RangeOrder|]. split; [apply blank_wf|]. split; [lia|].
  destruct (proj2 (Run_reloads_before_it_selects env 300000000000
                     [{| stopArrives := false; prefersDone := true |}] start
                     env_RangeOrder (blank_wf _ _)))
    as (st & c1 & c' & Hreload & _ & Hrun & _ & Hlt & _); [lia|].
  exists st, c1, c'. split; [exact Hreload|]. split; [exact Hrun | exact Hlt].
Defined.

(** C7 fails as stated: the interval is five minutes, [Stop] is signalled
    before the first tick, the first [select] takes the cancellation at once,
    and [Run] has slept the five minutes and executed one reload by the time
    it returns. *)
Lemma early_Stop_still_reloads_once :
  exists c',
    Run env 300000000000 (Stop false)
      [{| stopArrives := false; prefersDone := true |}] start
      = Some (Returned, c') /\
    reloads start = 0 /\
    reloads c' = 1 /\
    clock (Outside start) = 1000%Z /\
    clock (Outside c') = 1300%Z /\
    Queries c' = [query 0].
Proof.
  eexists. split; [vm_compute; reflexivity|]. by vm_compute.
Qed.

(** On the deployment: the listing for [i-2] fails and returns nothing. *)
Lemma failed_listing_witness :
  wf (blank "KEC" (listing ([], Some "listing interrupted"))) /\
  GetProductConfig env "KEC" (listing ([], Some "listing interrupted")) = inl [] /\
  exists c1 c',
    forEach (loadInstance env [] (lowerExcludes env [])) ["i-1"]
      (blank "KEC" (listing ([], Some "listing interrupted"))) = Some (tt, c1) /\
    ListMetrics env (Namespace c1) "i-2" (Outside c1)
      = (([], Some "listing interrupted"), listing ([], Some "listing interrupted")) /\
    loadMetrics env (["i-1"] ++ "i-2" :: ["i-3"])
      (blank "KEC" (listing ([], Some "listing interrupted"))) = Some (None, c') /\
    dom (MetricMap c') = {[ "cpu.i-1"; "cpu.i-3" ]}.
Proof.
  split; [apply blank_wf|]. split; [reflexivity|].
  eexists.
  edestruct (loadMetrics_tolerates_failed_listing env
               (blank "KEC" (listing ([], Some "listing interrupted")))
               [] ["i-1"] "i-2" ["i-3"])
    as (c2 & c' & _ & _ & _ & _ & _ & _ & Hload);
    [apply blank_wf | reflexivity | vm_compute; reflexivity
    | vm_compute; reflexivity |].
  exists c'. split; [reflexivity|]. split; [reflexivity|].
  split; [exact Hload|].
  vm_compute in Hload. injection Hload as <-. by vm_compute.
Defined.

(** C8 fails as stated: the listing for [i-2] fails but hands back the
    metadata it had gathered, and [i-2] gets its metric like the others. *)
Lemma failed_listing_with_metadata_is_processed :
  ListMetrics env "KEC" "i-2" (listing (["cpu"], Some "listing interrupted"))
    = ((["cpu"], Some "listing interrupted"),
       listing (["cpu"], Some "listing interrupted")) /\
  exists c',
    loadMetrics env ["i-1"; "i-2"; "i-3"]
      (blank "KEC" (listing (["cpu"], Some "listing interrupted"))) = Some (None, c') /\
    MetricMap c' !! "cpu.i-2" = Some 1 /\
    Heap c' !! 1 = Some {| tname := "cpu"; tloaded := 1000; tseries := ["i-2"] |} /\
    {| lvl := Warn; msg := "request metric list fail" |} ∈ Logged c'.
Proof.
  split; [reflexivity|].
  eexists. split; [vm_compute; reflexivity|].
  split; [by vm_compute|]. split; [by vm_compute|].
  vm_compute. apply list_elem_of_In. simpl. tauto.
Qed.


(** On the deployment: a listing that fails with metadata. *)
Lemma processes_every_entry_witness :
  ListMetrics env "KEC" "i-2" (listing (["cpu"], Some "listing interrupted"))
    = ((["cpu"], Some "listing interrupted"),
       listing (["cpu"], Some "listing interrupted")) /\
  exists c1,
    loadInstance env [] [] "i-2"
      (blank "KEC" (listing (["cpu"], Some "listing interrupted")))
    = forEach (loadMeta env [] [] "i-2") ["cpu"] c1.
Proof.
  split; [reflexivity|].
  destruct (loadInstance_processes_every_entry env [] [] "i-2"
              (blank "KEC" (listing (["cpu"], Some "listing interrupted")))
              ["cpu"] (Some "listing interrupted")
              (listing (["cpu"], Some "listing interrupted")) eq_refl)
    as (c1 & _ & Hrun & _).
  exists c1. exact Hrun.
Defined.

(** C10 fails as stated in its last part: the listing succeeds with a
    non-empty sequence, its one entry is on the exclusion list, and the
    instance contributes no metric. *)
Lemma excluded_entries_contribute_nothing :
  ListMetrics env "KEC" "i-1" allExcluded = ((["CPU"], None), allExcluded) /\
  exists c',
    loadMetrics env ["i-1"] (blank "KEC" allExcluded) = Some (None, c') /\
    MetricMap c' = ∅ /\ Heap c' = [].
Proof.
  split; [reflexivity|].
  eexists. split; [vm_compute; reflexivity|]. by vm_compute.
Qed.

(** *** The further properties on the deployment *)

Lemma grown_registry : MetricMap grown = {[ "cpu.i-1" := 0 ]}.
Proof. vm_compute; reflexivity. Qed.

Lemma grown_wf : wf grown.
Proof.
  intros k p. rewrite grown_registry.
  intros [<- <-]%lookup_singleton_Some. vm_compute. lia.
Qed.

Lemma grown_distinctObjects : distinctObjects grown.
Proof.
  intros k1 k2 p. rewrite grown_registry.
  intros [<- _]%lookup_singleton_Some [<- _]%lookup_singleton_Some. done.
Qed.

Lemma grown_validQueries : validQueries grown.
Proof.
  unfold validQueries. apply Forall_forall. intros q Hq.
  vm_compute in Hq. apply list_elem_of_In in Hq. simpl in Hq.
  destruct Hq as [<-|[]]. vm_compute. lia.
Qed.

(** No key of [i-2] is the key of the metric of [i-1]. *)
Lemma not_a_key_of_i2 k :
  MetricMap grown !! k = Some 0 -> ~ keyOf env (fun ins => ins ∈ ["i-2"]) k.
Proof.
  rewrite grown_registry. intros [<- _]%lookup_singleton_Some.
  intros (ins & meta & Hin & Hkey). apply list_elem_of_singleton in Hin as ->.
  unfold metricKey in Hkey. simpl in Hkey.
  pose proof (f_equal String.length Hkey) as Hlen.
  rewrite string_length_app in Hlen. simpl in Hlen.
  destruct meta as [|a [|b [|c [|d meta]]]]; simpl in Hlen; try lia.
  simpl in Hkey. by simplify_eq.
Qed.

(** On the deployment: the second cycle keeps the entry of cycle zero. *)
Lemma keeps_registry_witness :
  LoadMetricsByProductConf env grown
    = Some (None, after (LoadMetricsByProductConf env grown) grown) /\
  (forall k p,
     MetricMap grown !! k = Some p ->
     MetricMap (after (LoadMetricsByProductConf env grown) grown) !! k = Some p) /\
  length (Heap grown)
    <= length (Heap (after (LoadMetricsByProductConf env grown) grown)).
Proof.
  split; [vm_compute; reflexivity|].
  apply (LoadMetricsByProductConf_keeps_registry env grown None).
  vm_compute; reflexivity.
Defined.

(** On the deployment: loading the metrics of [i-2] leaves the metric of
    [i-1] as cycle zero loaded it. *)
Lemma spares_other_objects_witness :
  loadMetrics env ["i-2"] grown
    = Some (None, after (loadMetrics env ["i-2"] grown) grown) /\
  Heap grown !! 0 = Some {| tname := "cpu"; tloaded := 1000; tseries := ["i-1"] |} /\
  (forall k, MetricMap grown !! k = Some 0 ->
             ~ keyOf env (fun ins => ins ∈ ["i-2"]) k) /\
  Heap (after (loadMetrics env ["i-2"] grown) grown) !! 0
    = Some {| tname := "cpu"; tloaded := 1000; tseries := ["i-1"] |}.
Proof.
  split; [vm_compute; reflexivity|]. split; [vm_compute; reflexivity|].
  split; [exact not_a_key_of_i2|].
  apply (loadMetrics_spares_other_objects env ["i-2"] grown None
           (after (loadMetrics env ["i-2"] grown) grown) 0);
    [vm_compute; reflexivity | vm_compute; reflexivity | exact not_a_key_of_i2].
Defined.

(** On the deployment: what loading the metrics of [i-2] adds. *)
Lemma adds_only_listed_keys_witness :
  GetProductConfig env (Namespace grown) (Outside grown) = inl [] /\
  loadMetrics env ["i-2"] grown
    = Some (None, after (loadMetrics env ["i-2"] grown) grown) /\
  forall k p,
    MetricMap (after (loadMetrics env ["i-2"] grown) grown) !! k = Some p ->
    MetricMap grown !! k = Some p \/
    exists ins meta,
      ins ∈ ["i-2"] /\
      isExcluded env (lowerExcludes env []) meta = false /\
      k = metricKey (MetricName env meta) (GetInstanceID env ins).
Proof.
  split; [reflexivity|]. split; [vm_compute; reflexivity|].
  apply (loadMetrics_adds_only_listed_keys env ["i-2"] grown [] None);
    [reflexivity | vm_compute; reflexivity].
Defined.

(** On the deployment: a listing that is down, and a namespace without a
    product configuration. *)
Lemma structural_errors_witness :
  (GetInstances env (ReloadIAMProjects env (Outside down)).2).1.2
    = Some "listing failed" /\
  GetProductConfig env (Namespace unconfigured) (Outside unconfigured)
    = inr "product config not found" /\
  (exists c',
     LoadMetricsByProductConf env down = Some (Some "listing failed", c') /\
     MetricMap c' = MetricMap down /\ Heap c' = Heap down /\
     Queries c' = Queries down) /\
  loadFromInstances env ["i-1"] unconfigured
    = Some (Some "product config not found", unconfigured).
Proof.
  split; [reflexivity|]. split; [reflexivity|]. split.
  - apply (proj1 (structural_errors_load_nothing env down "listing failed")).
    reflexivity.
  - apply (proj2 (structural_errors_load_nothing env unconfigured
                    "product config not found") eq_refl ["i-1"]).
Defined.

(** On the deployment: the second cycle does not panic. *)
Lemma never_panics_witness :
  (forall m, RangeOrder env m ≡ₚ map_to_list m) /\
  wf grown /\
  exists r c', LoadMetricsByProductConf env grown = Some (r, c') /\ wf c'.
Proof.
  split; [exact env_RangeOrder|]. split; [exact grown_wf|].
  apply (LoadMetricsByProductConf_never_panics env grown env_RangeOrder grown_wf).
Defined.

(** On the deployment: the queries after the second cycle. *)
Lemma keeps_queries_valid_witness :
  validQueries grown /\
  LoadMetricsByProductConf env grown
    = Some (None, after (LoadMetricsByProductConf env grown) grown) /\
  validQueries (after (LoadMetricsByProductConf env grown) grown).
Proof.
  split; [exact grown_validQueries|]. split; [vm_compute; reflexivity|].
  apply (LoadMetricsByProductConf_keeps_queries_valid env grown None _
           grown_validQueries).
  vm_compute; reflexivity.
Defined.

(** On the deployment: [initQueries] after cycle zero queries the metric of
    [i-1] once more. *)
Lemma initQueries_witness :
  initQueries env cycleZero
    = Some (None, after (initQueries env cycleZero) cycleZero) /\
  Queries (after (initQueries env cycleZero) cycleZero)
    = Queries cycleZero ++ queriesFor tt (RangeOrder env (MetricMap cycleZero)) /\
  Queries (after (initQueries env cycleZero) cycleZero) = [query 0; query 0].
Proof.
  split; [vm_compute; reflexivity|]. split; [|vm_compute; reflexivity].
  apply (initQueries_queries_every_metric env cycleZero None
           (after (initQueries env cycleZero) cycleZero));
    [vm_compute; reflexivity | reflexivity].
Defined.

(** On the deployment: two ticks without a cancellation. *)
Lemma Run_without_Stop_witness :
  (forall m, RangeOrder env m ≡ₚ map_to_list m) /\
  wf start /\
  (0 < 300000000000)%Z /\
  Forall (fun ev => stopArrives ev = false)
    [{| stopArrives := false; prefersDone := true |};
     {| stopArrives := false; prefersDone := false |}] /\
  exists c',
    Run env 300000000000 false
      [{| stopArrives := false; prefersDone := true |};
       {| stopArrives := false; prefersDone := false |}] start
      = Some (Selecting, c') /\
    reloads c' = reloads start + 3.
Proof.
  split; [exact env_RangeOrder|]. split; [apply blank_wf|]. split; [lia|].
  assert (Hall : Forall (fun ev => stopArrives ev = false)
                   [{| stopArrives := false; prefersDone := true |};
                    {| stopArrives := false; prefersDone := false |}])
    by (repeat constructor).
  split; [exact Hall|].
  apply (Run_without_Stop_keeps_reloading env 300000000000 _ start
           env_RangeOrder (blank_wf _ _) eq_refl Hall).
Defined.



(** On the deployment: the cycle in a namespace that bounds its instances
    to two registers [i-2]. *)
Lemma registers_listed_instances_witness :
  LoadMetricsByProductConf env crowded
    = Some (None, after (LoadMetricsByProductConf env crowded) crowded) /\
  MetricMap (after (LoadMetricsByProductConf env crowded) crowded) !! "cpu.i-2"
    = Some 1 /\
  (MetricMap crowded !! "cpu.i-2" = Some 1 \/
   exists ins meta,
     ins ∈ (GetInstances env (ReloadIAMProjects env (Outside crowded)).2).1.1 /\
     (IsSupportMultiDimensionNamespace env (Namespace crowded) = true ->
      ins ∈ take (DefaultSupportInstances env)
              (GetInstances env (ReloadIAMProjects env (Outside crowded)).2).1.1) /\
     "cpu.i-2" = metricKey (MetricName env meta) (GetInstanceID env ins)).
Proof.
  split; [vm_compute; reflexivity|]. split; [vm_compute; reflexivity|].
  apply (LoadMetricsByProductConf_registers_listed_instances env crowded None
           (after (LoadMetricsByProductConf env crowded) crowded) "cpu.i-2" 1);
    vm_compute; reflexivity.
Defined.

(** On the deployment: the second cycle gives [i-2] an object of its own. *)
Lemma keeps_objects_apart_witness :
  wf grown /\ distinctObjects grown /\
  LoadMetricsByProductConf env grown
    = Some (None, after (LoadMetricsByProductConf env grown) grown) /\
  wf (after (LoadMetricsByProductConf env grown) grown) /\
  distinctObjects (after (LoadMetricsByProductConf env grown) grown).
Proof.
  split; [exact grown_wf|]. split; [exact grown_distinctObjects|].
  split; [vm_compute; reflexivity|].
  apply (LoadMetricsByProductConf_keeps_objects_apart env grown None _
           grown_wf grown_distinctObjects).
  vm_compute; reflexivity.
Defined.

(** On the deployment: one new key and one new object in the second cycle. *)
Lemma allocates_per_key_witness :
  LoadMetricsByProductConf env grown
    = Some (None, after (LoadMetricsByProductConf env grown) grown) /\
  length (Heap (after (LoadMetricsByProductConf env grown) grown))
    + size (MetricMap grown)
  = length (Heap grown)
    + size (MetricMap (after (LoadMetricsByProductConf env grown) grown)).
Proof.
  split; [vm_compute; reflexivity|].
  apply (LoadMetricsByProductConf_allocates_per_key env grown None).
  vm_compute; reflexivity.
Defined.

(** On the deployment: the two samples of the first batch, with the
    goroutine of the second batch running in between. *)
Lemma keeps_batch_order_witness :
  Collect env [0; 0; 1; 0; 0] [] threeQueries
    = Some (None, [(0, 2); (0, 0)],
            after (option_map (fun r => (r.1.1, r.2))
                     (Collect env [0; 0; 1; 0; 0] [] threeQueries)) threeQueries) /\
  SplitByBatch (Queries threeQueries) (batchSize env threeQueries) !! 0
    = Some [query 2; query 0] /\
  exists sent,
    [(0, 2); (0, 0)] = [] ++ sent /\
    delivered env 0 [query 2; query 0] `sublist_of` sent.
Proof.
  split; [vm_compute; reflexivity|]. split; [vm_compute; reflexivity|].
  apply (Collect_keeps_batch_order env [0; 0; 1; 0; 0] [] threeQueries None
           [(0, 2); (0, 0)]
           (after (option_map (fun r => (r.1.1, r.2))
                     (Collect env [0; 0; 1; 0; 0] [] threeQueries)) threeQueries)
           0 [query 2; query 0]);
    vm_compute; reflexivity.
Defined.

(** On the deployment: the goroutine of the second batch never runs. *)
Lemma waits_for_every_batch_witness :
  SplitByBatch (Queries threeQueries) (batchSize env threeQueries) !! 1
    = Some [query 1] /\
  (1 ∉ [0; 0; 0; 0]) /\
  Collect env [0; 0; 0; 0] [] threeQueries = None.
Proof.
  assert (Hnot : 1 ∉ [0; 0; 0; 0]).
  { intros Hin. apply list_elem_of_In in Hin. simpl in Hin.
    repeat destruct Hin as [Hin|Hin]; try discriminate. exact Hin. }
  split; [vm_compute; reflexivity|]. split; [exact Hnot|].
  apply (Collect_waits_for_every_batch env [0; 0; 0; 0] [] threeQueries 1 [query 1]);
    [vm_compute; reflexivity | exact Hnot].
Defined.

(** On the deployment: a scrape before cycle zero. *)
Lemma no_queries_witness :
  Queries start = [] /\
  Collect env [3; 1] [(7, 7)] start = Some (None, [(7, 7)], start).
Proof.
  split; [reflexivity|].
  apply (Collect_of_no_queries env [3; 1] [(7, 7)] start). reflexivity.
Defined.

End DeploymentRuns.
